(** * zoom_reset.cli: a shallow embedding and its properties

    The program is a small Python command line tool.  It lists the running
    processes of the target application, asks the operating system to
    terminate them, and moves a fixed per-platform catalog of paths into a
    timestamped backup directory.

    Conventions of the embedding.
    - A Python [str] is a [string]; each [ascii] is the code point
      (0..255) of one character, classified as CPython classifies it.
    - A Python exception is a value of [exn]; a call that may raise
      returns [result A = exn + A] and [try/except] is a match on it.
    - [pathlib.Path] is the POSIX flavour used by the test-suite: an
      anchor flag and a list of components.
    - The file system is a tree of directories and files without
      permissions, links or devices: a call fails only for structural
      reasons (missing parent, name taken, ...).
    - The operating system (platform name, process listing command,
      signal delivery, clock, environment) is a read-only record [Host];
      what a run changes is a record [World]. *)

From Stdlib Require Import ZArith NArith List String Ascii Bool Lia.
From stdpp Require Import base option list gmap strings pretty.

Local Set Warnings "-register-all".

Open Scope string_scope.
Open Scope Z_scope.

(** ** Exceptions *)

Inductive exn : Type :=
| ValueError
| IndexError
| CsvError (msg : string)
| UnsupportedSystemError (msg : string)
| CalledProcessError (msg : string)
| ProcessLookupError
| PermissionError (msg : string)
| FileNotFoundError
| FileExistsError
| NotADirectoryError
| IsADirectoryError
| DirectoryNotEmptyError
| InvalidArgumentError
| ShutilError (msg : string)
| OtherError (msg : string).

Definition result (A : Type) : Type := (exn + A)%type.

Definition ret {A} (a : A) : result A := inr a.
Definition raise {A} (e : exn) : result A := inl e.

Definition bind {A B} (m : result A) (k : A -> result B) : result B :=
  match m with
  | inl e => inl e
  | inr a => k a
  end.

Notation "'do' x <- m 'in' k" := (bind m (fun x => k))
  (at level 10, x name, m at level 100, k at level 200).

(** ** Python strings *)

Module Str.

Definition ord (c : ascii) : N := N_of_ascii c.

(** [str.isspace] on one character (code points below 256). *)
Definition isspace (c : ascii) : bool :=
  let n := ord c in
  (((9 <=? n) && (n <=? 13)) || ((28 <=? n) && (n <=? 31))
   || (n =? 32) || (n =? 133) || (n =? 160))%N.

(** The line boundaries of [str.splitlines] (code points below 256). *)
Definition is_linebreak (c : ascii) : bool :=
  let n := ord c in
  (((10 <=? n) && (n <=? 13)) || ((28 <=? n) && (n <=? 30)) || (n =? 133))%N.

Definition is_cr (c : ascii) : bool := (ord c =? 13)%N.
Definition is_lf (c : ascii) : bool := (ord c =? 10)%N.

(** [str.lower] on one character of Latin-1. *)
Definition lower_char (c : ascii) : ascii :=
  let n := ord c in
  if (((65 <=? n) && (n <=? 90))
      || ((192 <=? n) && (n <=? 222) && negb (n =? 215)))%N
  then ascii_of_N (n + 32) else c.

Fixpoint lower (s : string) : string :=
  match s with
  | EmptyString => EmptyString
  | String c s' => String (lower_char c) (lower s')
  end.

Definition is_empty (s : string) : bool :=
  match s with EmptyString => true | String _ _ => false end.

(** [output.splitlines()]: a CR LF pair is one boundary and a final
    boundary opens no further line. *)
Fixpoint splitlines (s : string) : list string :=
  match s with
  | EmptyString => []
  | String c s' =>
      if is_linebreak c then
        match s' with
        | EmptyString => [EmptyString]
        | String c2 s'' =>
            if is_cr c && is_lf c2 then EmptyString :: splitlines s''
            else EmptyString :: splitlines s'
        end
      else
        match splitlines s' with
        | [] => [String c EmptyString]
        | l :: ls => String c l :: ls
        end
  end.

Fixpoint lstrip (s : string) : string :=
  match s with
  | EmptyString => EmptyString
  | String c s' => if isspace c then lstrip s' else s
  end.

Fixpoint rstrip (s : string) : string :=
  match s with
  | EmptyString => EmptyString
  | String c s' =>
      let r := rstrip s' in
      if isspace c && is_empty r then EmptyString else String c r
  end.

(** [s.strip()]: the left index moves first, in the right one. *)
Definition strip (s : string) : string := rstrip (lstrip s).

(** The maximal whitespace-free prefix of [s] and what follows it. *)
Fixpoint take_word (s : string) : string * string :=
  match s with
  | EmptyString => (EmptyString, EmptyString)
  | String c s' =>
      if isspace c then (EmptyString, s)
      else let (w, r) := take_word s' in (String c w, r)
  end.

(** [s.split(None, maxcount)]: at most [maxcount] splits at runs of
    whitespace; what is left after the last split, without its leading
    whitespace, is the final field. *)
Fixpoint split_ws (maxcount : nat) (s : string) : list string :=
  match maxcount with
  | O =>
      let r := lstrip s in
      if is_empty r then [] else [r]
  | S k =>
      let r := lstrip s in
      if is_empty r then []
      else let (w, rest) := take_word r in w :: split_ws k rest
  end.

(** [sep.join(parts)] *)
Definition join (sep : string) (parts : list string) : string :=
  String.concat sep parts.

(** [needle in text] *)
Fixpoint contains (needle text : string) : bool :=
  String.prefix needle text
  || match text with
     | EmptyString => false
     | String _ t => contains needle t
     end.

(** *** [int(s)] in base ten

    CPython copies characters below 127 unchanged, turns every other
    whitespace character into a blank and then skips the C-locale blanks
    (code points 9 to 13 and 32) at both ends: the separators 28 to 31 are
    whitespace for [str.isspace] but not for [int].  The interpreter's
    configurable limit on the number of digits is not modelled. *)
Definition int_space (c : ascii) : bool :=
  let n := ord c in
  (((9 <=? n) && (n <=? 13)) || (n =? 32) || (n =? 133) || (n =? 160))%N.

Fixpoint int_lstrip (s : string) : string :=
  match s with
  | EmptyString => EmptyString
  | String c s' => if int_space c then int_lstrip s' else s
  end.

Fixpoint int_rstrip (s : string) : string :=
  match s with
  | EmptyString => EmptyString
  | String c s' =>
      let r := int_rstrip s' in
      if int_space c && is_empty r then EmptyString else String c r
  end.

Definition digit_val (c : ascii) : option Z :=
  let n := ord c in
  if ((48 <=? n) && (n <=? 57))%N then Some (Z.of_N n - 48) else None.

Definition is_underscore (c : ascii) : bool := (ord c =? 95)%N.

(** Digits with single underscores between them; [prev_us] says that the
    previous character was an underscore, [seen] that a digit was read. *)
Fixpoint scan_digits (prev_us seen : bool) (acc : Z) (s : string) : option Z :=
  match s with
  | EmptyString => if prev_us || negb seen then None else Some acc
  | String c s' =>
      if is_underscore c then
        if prev_us then None else scan_digits true seen acc s'
      else
        match digit_val c with
        | Some d => scan_digits false true (10 * acc + d) s'
        | None => None
        end
  end.

Definition split_sign (s : string) : bool * string :=
  match s with
  | String c r =>
      if (ord c =? 45)%N then (true, r)
      else if (ord c =? 43)%N then (false, r)
      else (false, s)
  | EmptyString => (false, s)
  end.

Definition int_of_str (s : string) : result Z :=
  let (neg, body) := split_sign (int_rstrip (int_lstrip s)) in
  match body with
  | String c _ =>
      if is_underscore c then raise ValueError
      else
        match scan_digits false false 0 body with
        | Some n => ret (if neg then - n else n)
        | None => raise ValueError
        end
  | EmptyString => raise ValueError
  end.

End Str.

(** ** Python lists *)

(** [l[i]] for a non-negative constant index. *)
Definition getitem {A} (l : list A) (i : nat) : result A :=
  match l !! i with
  | Some a => ret a
  | None => raise IndexError
  end.

(** ** Process records *)

Record ProcessInfo : Type := mkProcessInfo {
  pid : Z;
  name : string;
  command : option string
}.

(** ** The process listing parsers *)

(** The body of the loop of [parse_ps_output] for one line: [None] is
    [continue], [Some p] is [processes.append(p)]. *)
Definition parse_ps_line (line : string) : result (option ProcessInfo) :=
  let parts := Str.split_ws 2 (Str.strip line) in
  if (length parts <? 2)%nat then ret None
  else
    do p0 <- getitem parts 0 in
    match Str.int_of_str p0 with
    | inl ValueError => ret None
    | inl e => raise e
    | inr pid =>
        do name <- getitem parts 1 in
        do command <-
          (if (2 <? length parts)%nat
           then (do c <- getitem parts 2 in ret (Some c))
           else ret None) in
        let text := Str.lower (Str.join " " (drop 1 parts)) in
        if Str.contains "zoom" text
        then ret (Some (mkProcessInfo pid name command))
        else ret None
    end.

Fixpoint parse_ps_loop (lines : list string) (processes : list ProcessInfo)
  : result (list ProcessInfo) :=
  match lines with
  | [] => ret processes
  | line :: rest =>
      do r <- parse_ps_line line in
      match r with
      | Some p => parse_ps_loop rest (processes ++ [p])
      | None => parse_ps_loop rest processes
      end
  end.

Definition parse_ps_output (output : string) : result (list ProcessInfo) :=
  parse_ps_loop (Str.splitlines output) [].

(** ** The [csv] reader

    [csv.reader] with the default dialect: a comma as delimiter, the
    double quote as quote character, doubled quotes inside quoted fields,
    no escape character, not strict.  States that the default dialect
    cannot reach are left out.
    The reader is the one of CPython 3.11 and later, where a NUL in a line
    is an ordinary character. *)

Module Csv.

Inductive ParserState : Type :=
| START_RECORD
| START_FIELD
| IN_FIELD
| IN_QUOTED_FIELD
| QUOTE_IN_QUOTED_FIELD
| EAT_CRNL.

Record ReaderObj : Type := mkReader {
  fields : list string;
  state : ParserState;
  field : string;
  field_len : N
}.

(** [csv.field_size_limit()] when nobody changed it. *)
Definition field_limit : N := 131072.

Definition delimiter : ascii := ascii_of_N 44.
Definition quotechar : ascii := ascii_of_N 34.

Definition is_state (s t : ParserState) : bool :=
  match s, t with
  | START_RECORD, START_RECORD | START_FIELD, START_FIELD
  | IN_FIELD, IN_FIELD | IN_QUOTED_FIELD, IN_QUOTED_FIELD
  | QUOTE_IN_QUOTED_FIELD, QUOTE_IN_QUOTED_FIELD | EAT_CRNL, EAT_CRNL => true
  | _, _ => false
  end.

Definition set_state (s : ParserState) (r : ReaderObj) : ReaderObj :=
  mkReader (fields r) s (field r) (field_len r).

Definition parse_reset (r : ReaderObj) : ReaderObj :=
  mkReader [] START_RECORD EmptyString 0.

Definition parse_save_field (r : ReaderObj) : ReaderObj :=
  mkReader (fields r ++ [field r]) (state r) EmptyString 0.

Definition parse_add_char (c : ascii) (r : ReaderObj) : result ReaderObj :=
  if (field_limit <=? field_len r)%N
  then raise (CsvError "field larger than field limit (131072)")
  else ret (mkReader (fields r) (state r)
                     (field r ++ String c EmptyString) (field_len r + 1)).

Definition is_newline (c : ascii) : bool := Str.is_lf c || Str.is_cr c.

(** One step of the automaton; [None] is the end-of-line marker that the
    reader feeds after the characters of each line. *)
Definition parse_process_char (c : option ascii) (r : ReaderObj)
  : result ReaderObj :=
  let start_field (r : ReaderObj) :=
    match c with
    | None => ret (set_state START_RECORD (parse_save_field r))
    | Some ch =>
        if is_newline ch then ret (set_state EAT_CRNL (parse_save_field r))
        else if Ascii.eqb ch quotechar then ret (set_state IN_QUOTED_FIELD r)
        else if Ascii.eqb ch delimiter then ret (parse_save_field r)
        else do r' <- parse_add_char ch r in ret (set_state IN_FIELD r')
    end in
  match state r with
  | START_RECORD =>
      match c with
      | None => ret r
      | Some ch =>
          if is_newline ch then ret (set_state EAT_CRNL r)
          else start_field (set_state START_FIELD r)
      end
  | START_FIELD => start_field r
  | IN_FIELD =>
      match c with
      | None => ret (set_state START_RECORD (parse_save_field r))
      | Some ch =>
          if is_newline ch then ret (set_state EAT_CRNL (parse_save_field r))
          else if Ascii.eqb ch delimiter
          then ret (set_state START_FIELD (parse_save_field r))
          else parse_add_char ch r
      end
  | IN_QUOTED_FIELD =>
      match c with
      | None => ret r
      | Some ch =>
          if Ascii.eqb ch quotechar then ret (set_state QUOTE_IN_QUOTED_FIELD r)
          else parse_add_char ch r
      end
  | QUOTE_IN_QUOTED_FIELD =>
      match c with
      | None => ret (set_state START_RECORD (parse_save_field r))
      | Some ch =>
          if Ascii.eqb ch quotechar
          then do r' <- parse_add_char ch r in ret (set_state IN_QUOTED_FIELD r')
          else if Ascii.eqb ch delimiter
          then ret (set_state START_FIELD (parse_save_field r))
          else if is_newline ch
          then ret (set_state EAT_CRNL (parse_save_field r))
          else do r' <- parse_add_char ch r in ret (set_state IN_FIELD r')
      end
  | EAT_CRNL =>
      match c with
      | None => ret (set_state START_RECORD r)
      | Some ch =>
          if is_newline ch then ret r
          else raise (CsvError "new-line character seen in unquoted field")
      end
  end.

Fixpoint feed (line : string) (r : ReaderObj) : result ReaderObj :=
  match line with
  | EmptyString => ret r
  | String c line' => do r' <- parse_process_char (Some c) r in feed line' r'
  end.

(** What an iterator gives to a [for] loop: the items it yields and then
    either [StopIteration] ([None]) or an exception. *)
Record iteration (A : Type) : Type := mkIteration {
  yielded : list A;
  stopped : option exn
}.
Arguments mkIteration {A}.
Arguments yielded {A}.
Arguments stopped {A}.

Definition yield {A} (a : A) (it : iteration A) : iteration A :=
  mkIteration (a :: yielded it) (stopped it).

(** The reader's [__next__] called until the input is exhausted.  A call
    takes lines until the automaton is back in [START_RECORD]; when the
    lines run out in the middle of a record, what was read is the last
    row. *)
Fixpoint reader_rows (lines : list string) (r : ReaderObj)
  : iteration (list string) :=
  match lines with
  | [] =>
      if negb (field_len r =? 0)%N || is_state (state r) IN_QUOTED_FIELD
      then mkIteration [fields (parse_save_field r)] None
      else mkIteration [] None
  | line :: rest =>
      match (do r1 <- feed line r in parse_process_char None r1) with
      | inl e => mkIteration [] (Some e)
      | inr r2 =>
          if is_state (state r2) START_RECORD
          then yield (fields r2) (reader_rows rest (parse_reset r2))
          else reader_rows rest r2
      end
  end.

Definition reader (lines : list string) : iteration (list string) :=
  reader_rows lines (mkReader [] START_RECORD EmptyString 0).

End Csv.

(** The body of the loop of [parse_tasklist_output] for one row. *)
Definition parse_tasklist_row (row : list string) : result (option ProcessInfo) :=
  match row with
  | [] => ret None
  | _ =>
      do r0 <- getitem row 0 in
      let name := Str.strip r0 in
      if Str.is_empty name then ret None
      else if negb (Str.contains "zoom" (Str.lower name)) then ret None
      else
        do pid <-
          match (if (1 <? length row)%nat
                 then (do r1 <- getitem row 1 in
                       do n <- Str.int_of_str r1 in ret (Some n))
                 else ret None) with
          | inl ValueError => ret None
          | other => other
          end in
        match pid with
        | None => ret None
        | Some n => ret (Some (mkProcessInfo n name None))
        end
  end.

Fixpoint parse_tasklist_loop (rows : list (list string)) (stop : option exn)
    (processes : list ProcessInfo) : result (list ProcessInfo) :=
  match rows with
  | [] =>
      match stop with
      | Some e => raise e
      | None => ret processes
      end
  | row :: rest =>
      do r <- parse_tasklist_row row in
      match r with
      | Some p => parse_tasklist_loop rest stop (processes ++ [p])
      | None => parse_tasklist_loop rest stop processes
      end
  end.

Definition parse_tasklist_output (output : string) : result (list ProcessInfo) :=
  let it := Csv.reader (Str.splitlines output) in
  parse_tasklist_loop (Csv.yielded it) (Csv.stopped it) [].

(** ** [pathlib.Path], POSIX flavour *)

Record Path : Type := mkPath {
  root : string;
  parts : list string
}.

Global Instance Path_eq_dec : EqDecision Path.
Proof. solve_decision. Defined.

Module Pth.

Definition slash : ascii := ascii_of_N 47.

Fixpoint split_slash (s : string) : list string :=
  match s with
  | EmptyString => [EmptyString]
  | String c s' =>
      if Ascii.eqb c slash then EmptyString :: split_slash s'
      else
        match split_slash s' with
        | [] => [String c EmptyString]
        | l :: ls => String c l :: ls
        end
  end.

(** Empty components and [.] are dropped when a string is parsed. *)
Definition keep_part (c : string) : bool :=
  negb (Str.is_empty c) && negb (String.eqb c ".").

(** One leading slash or three and more give the root [/]; exactly two
    are kept as they are. *)
Definition parse_root (s : string) : string :=
  if negb (String.prefix "/" s) then EmptyString
  else if String.prefix "//" s && negb (String.prefix "///" s) then "//"
  else "/".

(** [Path(s)] *)
Definition of_str (s : string) : Path :=
  mkPath (parse_root s) (List.filter keep_part (split_slash s)).

(** [p / seg] *)
Definition joinpath (p : Path) (seg : string) : Path :=
  let q := of_str seg in
  if Str.is_empty (root q) then mkPath (root p) (parts p ++ parts q) else q.

(** [p.name] *)
Definition name (p : Path) : string := List.last (parts p) EmptyString.

(** [str(p)] *)
Definition to_str (p : Path) : string :=
  match parts p with
  | [] => if Str.is_empty (root p) then "." else root p
  | _ => root p ++ Str.join "/" (parts p)
  end.

End Pth.

Notation "p // seg" := (Pth.joinpath p seg) (at level 40, left associativity).

(** ** The file system *)

Module Fs.

Inductive node : Type :=
| File (data : string)
| Dir (entries : gmap string node).

(** Paths are resolved from the root directory, component by component. *)
Fixpoint walk (n : node) (p : list string) : result node :=
  match p with
  | [] => ret n
  | c :: p' =>
      match n with
      | File _ => raise NotADirectoryError
      | Dir es =>
          match es !! c with
          | Some ch => walk ch p'
          | None => raise FileNotFoundError
          end
      end
  end.

Definition lookup (n : node) (p : list string) : option node :=
  match walk n p with
  | inr x => Some x
  | inl _ => None
  end.

(** [os.path.exists], [Path.exists] *)
Definition exists_ (n : node) (p : list string) : bool :=
  match lookup n p with Some _ => true | None => false end.

(** [os.path.isdir], [Path.is_dir] *)
Definition is_dir (n : node) (p : list string) : bool :=
  match lookup n p with Some (Dir _) => true | _ => false end.

(** Puts [v] at [p] ([None] removes the entry); [None] when the parent of
    [p] is not an existing directory or [p] is the root. *)
Fixpoint set_at (p : list string) (v : option node) (n : node) : option node :=
  match p with
  | [] => None
  | c :: p' =>
      match n with
      | File _ => None
      | Dir es =>
          match p' with
          | [] =>
              Some (Dir match v with
                        | Some x => <[c := x]> es
                        | None => delete c es
                        end)
          | _ =>
              match es !! c with
              | Some ch =>
                  match set_at p' v ch with
                  | Some ch' => Some (Dir (<[c := ch']> es))
                  | None => None
                  end
              | None => None
              end
          end
      end
  end.

Definition parent (p : list string) : list string := removelast p.

Fixpoint is_prefix (p q : list string) : bool :=
  match p, q with
  | [], _ => true
  | a :: p', b :: q' => String.eqb a b && is_prefix p' q'
  | _ :: _, [] => false
  end.

(** [os.mkdir(p)] *)
Definition os_mkdir (p : list string) (n : node) : result node :=
  match walk n p with
  | inr _ => raise FileExistsError
  | inl NotADirectoryError => raise NotADirectoryError
  | inl _ =>
      do _ <- walk n (parent p) in
      match set_at p (Some (Dir ∅)) n with
      | Some n' => ret n'
      | None => raise NotADirectoryError
      end
  end.

(** [Path.mkdir(parents=False, exist_ok=exist_ok)] *)
Definition mkdir_leaf (p : list string) (exist_ok : bool) (n : node)
  : result node :=
  match os_mkdir p n with
  | inr n' => ret n'
  | inl FileNotFoundError => raise FileNotFoundError
  | inl e => if negb exist_ok || negb (is_dir n p) then raise e else ret n
  end.

(** [Path.mkdir(parents=True, exist_ok=exist_ok)] on the path whose
    components, last one first, are [rp]: the parent is made with
    [parents=True, exist_ok=True] when [os.mkdir] finds it missing. *)
Fixpoint mkdir_parents (rp : list string) (exist_ok : bool) (n : node)
  : result node :=
  let p := rev rp in
  match os_mkdir p n with
  | inr n' => ret n'
  | inl FileNotFoundError =>
      match rp with
      | [] => raise FileNotFoundError
      | _ :: rp' =>
          do n1 <- mkdir_parents rp' true n in
          mkdir_leaf p exist_ok n1
      end
  | inl e => if negb exist_ok || negb (is_dir n p) then raise e else ret n
  end.

(** [os.makedirs(p)] with [exist_ok=False]: a [FileExistsError] while the
    parents are made is ignored. *)
Fixpoint makedirs (rp : list string) (n : node) : result node :=
  let p := rev rp in
  match rp with
  | [] => os_mkdir p n
  | _ :: rp' =>
      if exists_ n (rev rp') then os_mkdir p n
      else
        match makedirs rp' n with
        | inr n1 => os_mkdir p n1
        | inl FileExistsError => os_mkdir p n
        | inl e => raise e
        end
  end.

Definition is_empty_dir (x : node) : bool :=
  match x with
  | Dir es => bool_decide (es = ∅)
  | File _ => false
  end.

(** [os.rename(src, dst)] *)
Definition os_rename (src dst : list string) (n : node) : result node :=
  do s <- walk n src in
  if bool_decide (src = dst) then ret n
  else if is_prefix src dst then raise InvalidArgumentError
  else
    do _ <- walk n (parent dst) in
    do _ <-
      match lookup n dst, s with
      | None, _ => ret tt
      | Some (File _), File _ => ret tt
      | Some (File _), Dir _ => raise NotADirectoryError
      | Some (Dir _), File _ => raise IsADirectoryError
      | Some (Dir es), Dir _ =>
          if bool_decide (es = ∅) then ret tt else raise DirectoryNotEmptyError
      end in
    match set_at src None n with
    | None => raise InvalidArgumentError
    | Some n1 =>
        match set_at dst (Some s) n1 with
        | Some n2 => ret n2
        | None => raise NotADirectoryError
        end
    end.

(** Writing the node [s] at [p], whose parent has to be a directory:
    what [copy2] does for a file and, after [makedirs], what [copytree]
    does for a directory. *)
Definition write_at (p : list string) (s : node) (n : node) : result node :=
  do _ <- walk n (parent p) in
  match set_at p (Some s) n with
  | Some n' => ret n'
  | None => raise NotADirectoryError
  end.

(** [shutil.move(src, dst)] *)
Definition shutil_move (src dst : list string) (n : node) : result node :=
  if is_dir n dst && bool_decide (src = dst) then os_rename src dst n
  else
    do real_dst <-
      (if is_dir n dst then
         let d := (dst ++ [List.last src EmptyString])%list in
         if exists_ n d
         then raise (ShutilError "Destination path already exists")
         else ret d
       else ret dst) in
    match os_rename src real_dst n with
    | inr n' => ret n'
    | inl _ =>
        match lookup n src with
        | Some (Dir es) =>
            if is_prefix src dst
            then raise (ShutilError "Cannot move a directory into itself")
            else
              do n1 <- makedirs (rev real_dst) n in
              do n2 <- write_at real_dst (Dir es) n1 in
              match set_at src None n2 with
              | Some n3 => ret n3
              | None => raise InvalidArgumentError
              end
        | Some (File d) =>
            do _ <- (if is_dir n real_dst then raise IsADirectoryError else ret tt) in
            do n1 <- write_at real_dst (File d) n in
            match set_at src None n1 with
            | Some n2 => ret n2
            | None => raise InvalidArgumentError
            end
        | None => raise FileNotFoundError
        end
    end.

End Fs.

(** ** Dates *)

Record datetime : Type := mkDatetime {
  year : nat;
  month : nat;
  day : nat;
  hour : nat;
  minute : nat;
  second : nat
}.

Definition digit_char (k : nat) : ascii := ascii_of_nat (48 + k mod 10).

(** The last [width] decimal digits of [n], zeros included: what the
    directives [%Y] (width 4) and [%m], [%d], [%H], [%M], [%S] (width 2)
    print for the fields of a date. *)
Fixpoint zero_padded (width n : nat) : string :=
  match width with
  | O => EmptyString
  | S w => zero_padded w (n / 10) ++ String (digit_char n) EmptyString
  end.

(** [strftime("%H%M%S")] *)
Definition strftime_HMS (d : datetime) : string :=
  zero_padded 2 (hour d) ++ zero_padded 2 (minute d) ++ zero_padded 2 (second d).

(** [strftime("%Y%m%d-%H%M%S")] *)
Definition strftime_stamp (d : datetime) : string :=
  zero_padded 4 (year d) ++ zero_padded 2 (month d) ++ zero_padded 2 (day d)
  ++ "-" ++ strftime_HMS d.

(** ** The machine and the state of a run *)

(** What the program observes and cannot change. *)
Record Host : Type := mkHost {
  (** [platform.system()] *)
  platform_system : string;
  (** [os.environ] *)
  os_environ : gmap string string;
  (** [Path.home()] *)
  path_home : Path;
  (** [datetime.now()] at the k-th reading of the clock *)
  clock : nat -> datetime;
  (** [subprocess.check_output] of the [ps] command *)
  ps_listing : result string;
  (** [subprocess.check_output] of the [tasklist] command *)
  tasklist_listing : result string;
  (** [os.kill(pid, SIGTERM)], given the requests made before:
      [None] when the signal was delivered, else the exception *)
  os_kill : list Z -> Z -> option exn
}.

(** What a run changes. *)
Record World : Type := mkWorld {
  fs : Fs.node;
  stdout : list string;
  stderr : list string;
  (** the process ids that were sent the termination signal, oldest first *)
  signals : list Z;
  clock_reads : nat
}.

(** A computation that may raise and may change the world; the changes
    made before an exception stay. *)
Definition M (A : Type) : Type := World -> result A * World.

Definition mret {A} (a : A) : M A := fun w => (inr a, w).
Definition mraise {A} (e : exn) : M A := fun w => (inl e, w).
Definition mbind {A B} (m : M A) (k : A -> M B) : M B :=
  fun w =>
    match m w with
    | (inl e, w') => (inl e, w')
    | (inr a, w') => k a w'
    end.
Definition lift {A} (r : result A) : M A := fun w => (r, w).

Notation "'run' x <- m 'in' k" := (mbind m (fun x => k))
  (at level 10, x name, m at level 100, k at level 200).

Definition print (line : string) : M unit :=
  fun w => (inr tt,
            mkWorld (fs w) (stdout w ++ [line]) (stderr w) (signals w)
                    (clock_reads w)).


Definition now (h : Host) : M datetime :=
  fun w => (inr (clock h (clock_reads w)),
            mkWorld (fs w) (stdout w) (stderr w) (signals w)
                    (S (clock_reads w))).

Definition kill (h : Host) (p : Z) : M unit :=
  fun w =>
    let w' := mkWorld (fs w) (stdout w) (stderr w) (signals w ++ [p])
                      (clock_reads w) in
    match os_kill h (signals w) p with
    | None => (inr tt, w')
    | Some e => (inl e, w')
    end.

(** A file system call: the tree changes when the call succeeds. *)
Definition fs_call (f : Fs.node -> result Fs.node) : M unit :=
  fun w =>
    match f (fs w) with
    | inl e => (inl e, w)
    | inr n => (inr tt, mkWorld n (stdout w) (stderr w) (signals w)
                                (clock_reads w))
    end.

Definition fs_read {A} (f : Fs.node -> A) : M A :=
  fun w => (inr (f (fs w)), w).

(** ** The program *)

Definition SUPPORTED_SYSTEMS : gmap string string :=
  <["Windows" := "windows"]> (<["Darwin" := "macos"]> (<["Linux" := "linux"]> ∅)).

Definition detect_system (h : Host) : result string :=
  let raw_name := platform_system h in
  match SUPPORTED_SYSTEMS !! raw_name with
  | None => raise (UnsupportedSystemError ("Unsupported platform: " ++ raw_name))
  | Some v => ret v
  end.

Definition list_zoom_processes (h : Host) (system_name : string)
  : result (list ProcessInfo) :=
  if String.eqb system_name "macos" || String.eqb system_name "linux" then
    do output <- ps_listing h in parse_ps_output output
  else if String.eqb system_name "windows" then
    do output <- tasklist_listing h in parse_tasklist_output output
  else raise (UnsupportedSystemError system_name).

(** One turn of the loop of [kill_processes]. *)
Definition kill_one (h : Host) (dry_run : bool) (proc : ProcessInfo) : M unit :=
  if dry_run then
    print ("Would terminate " ++ name proc ++ " (PID " ++ pretty (pid proc) ++ ")")
  else
    fun w =>
      match kill h (pid proc) w with
      | (inr _, w') =>
          print ("Terminated " ++ name proc ++ " (PID " ++ pretty (pid proc) ++ ")") w'
      | (inl ProcessLookupError, w') =>
          print ("Process " ++ pretty (pid proc) ++ " not found; skipping") w'
      | (inl (PermissionError msg), w') =>
          print ("Permission denied terminating " ++ pretty (pid proc) ++ ": " ++ msg) w'
      | (inl e, w') => (inl e, w')
      end.

Fixpoint kill_processes (h : Host) (processes : list ProcessInfo)
    (dry_run : bool) : M unit :=
  match processes with
  | [] => mret tt
  | proc :: rest =>
      run _ <- kill_one h dry_run proc in kill_processes h rest dry_run
  end.

Definition _append_unique (paths : list Path) (path : Path) : list Path :=
  if decide (path ∈ paths) then paths else (paths ++ [path])%list.

(** [zoom_paths(system_name, env=env, home=home)]; an argument that is
    not given is [None]. *)
Definition zoom_paths (h : Host) (system_name : string)
    (env : option (gmap string string)) (home : option Path)
  : result (list Path) :=
  let env :=
    match env with
    | Some e => if decide (e = ∅) then os_environ h else e
    | None => os_environ h
    end in
  let home := match home with Some p => p | None => path_home h end in
  if String.eqb system_name "windows" then
    let appdata :=
      match env !! "APPDATA" with
      | Some v => Pth.of_str v
      | None => home // "AppData" // "Roaming"
      end in
    let localappdata :=
      match env !! "LOCALAPPDATA" with
      | Some v => Pth.of_str v
      | None => home // "AppData" // "Local"
      end in
    ret (fold_left _append_unique
           [ appdata // "Zoom";
             localappdata // "Zoom";
             appdata // "zoom.us";
             localappdata // "zoom.us";
             localappdata // "ZoomOpener";
             localappdata // "Temp" // "zoom" ] [])
  else if String.eqb system_name "macos" then
    let base := home // "Library" in
    ret (fold_left _append_unique
           [ base // "Application Support" // "zoom.us";
             base // "Application Support" // "ZoomOpener";
             base // "Preferences" // "us.zoom.xos.plist";
             base // "Caches" // "us.zoom.xos";
             base // "Logs" // "zoom.us";
             base // "WebKit" // "us.zoom.xos";
             base // "Cookies" // "us.zoom.xos.binarycookies" ] [])
  else if String.eqb system_name "linux" then
    ret (fold_left _append_unique
           [ home // ".config" // "zoom";
             home // ".cache" // "zoom";
             home // ".zoom";
             home // ".var" // "app" // "us.zoom.Zoom";
             home // ".cache" // "ZoomOpener" ] [])
  else raise (UnsupportedSystemError system_name).

Definition ensure_backup_root (h : Host) (path : option Path) : M Path :=
  let path :=
    match path with
    | None => path_home h // ".zoom-reset-backups"
    | Some p => p
    end in
  run _ <- fs_call (Fs.mkdir_parents (rev (parts path)) true) in mret path.

Definition timestamped_backup_dir (h : Host) (root : Path) : M Path :=
  run d <- now h in
  let stamp := strftime_stamp d in
  let backup_dir := root // stamp in
  run _ <- fs_call (Fs.mkdir_parents (rev (parts backup_dir)) true) in
  mret backup_dir.

Definition backup_and_remove (h : Host) (target backup_root : Path)
    (dry_run : bool) : M unit :=
  run target_exists <- fs_read (fun n => Fs.exists_ n (parts target)) in
  if negb target_exists then mret tt
  else
    let destination := backup_root // Pth.name target in
    run taken <- fs_read (fun n => Fs.exists_ n (parts destination)) in
    run destination <-
      (if taken
       then (run d <- now h in
             mret (Pth.of_str (Pth.to_str destination ++ "-" ++ strftime_HMS d)))
       else mret destination) in
    if dry_run then
      print ("Would move " ++ Pth.to_str target ++ " to " ++ Pth.to_str destination)
    else
      run _ <- print ("Moving " ++ Pth.to_str target ++ " to backup "
                      ++ Pth.to_str destination) in
      fs_call (Fs.shutil_move (parts target) (parts destination)).

Fixpoint backup_each (h : Host) (targets : list Path) (backup_dir : Path)
    (dry_run : bool) : M unit :=
  match targets with
  | [] => mret tt
  | path :: rest =>
      run _ <- backup_and_remove h path backup_dir dry_run in
      backup_each h rest backup_dir dry_run
  end.

Definition perform_reset (h : Host) (dry_run : bool)
    (backup_root : option Path) (skip_process_kill : bool) : M unit :=
  run system_name <- lift (detect_system h) in
  run _ <- print ("Detected system: " ++ system_name) in
  run _ <-
      (if negb skip_process_kill then
         run processes <- lift (list_zoom_processes h system_name) in
         match processes with
         | _ :: _ =>
             run _ <- print ("Found " ++ pretty (length processes)
                             ++ " running Zoom process(es)") in
             kill_processes h processes dry_run
         | [] => print "No Zoom processes found"
         end
       else print "Skipping process termination step") in
  run backup_root <- ensure_backup_root h backup_root in
  run backup_dir <- timestamped_backup_dir h backup_root in
  run targets <- lift (zoom_paths h system_name None None) in
  run _ <- backup_each h targets backup_dir dry_run in
  print "Reset complete. You can reopen Zoom and sign in again.".







(** ** Vocabulary of the statements *)

Definition nl : string := String (ascii_of_N 10) EmptyString.
Definition dq : string := String (ascii_of_N 34) EmptyString.

(** The number of maximal runs of characters that are not whitespace;
    [inside] says that the previous character belongs to such a run. *)
Fixpoint num_fields_from (inside : bool) (s : string) : nat :=
  match s with
  | EmptyString => O
  | String c s' =>
      if Str.isspace c then num_fields_from false s'
      else ((if inside then 0 else 1) + num_fields_from true s')%nat
  end.

Definition num_fields (s : string) : nat := num_fields_from false s.

(** The fields of a line of the columnar listing. *)
Definition ps_fields (line : string) : list string :=
  Str.split_ws 2 (Str.strip line).

(** The record that a line of the columnar listing stands for, if any. *)
Definition ps_record (line : string) : option ProcessInfo :=
  match ps_fields line with
  | id_field :: name_field :: rest =>
      match Str.int_of_str id_field with
      | inr n =>
          if Str.contains "zoom" (Str.lower (Str.join " " (name_field :: rest)))
          then Some (mkProcessInfo n name_field (head rest))
          else None
      | inl _ => None
      end
  | _ => None
  end.

(** A field that [int] reads as a number that is not negative. *)
Definition nonneg_int_field (s : string) : Prop :=
  exists n, Str.int_of_str s = inr n /\ 0 <= n.

(** The path [p] followed by the components [names]. *)
Definition sub (p : Path) (names : list string) : Path :=
  mkPath (root p) (parts p ++ names).

(** A base directory of the windows catalog: the value of the variable
    when the environment has it, else the fallback under the home. *)
Definition windows_base (env : gmap string string) (home : Path)
    (var : string) (fallback : list string) : Path :=
  match env !! var with
  | Some v => Pth.of_str v
  | None => sub home fallback
  end.

Definition windows_table (a l : Path) : list Path :=
  [ sub a ["Zoom"]; sub l ["Zoom"]; sub a ["zoom.us"]; sub l ["zoom.us"];
    sub l ["ZoomOpener"]; sub l ["Temp"; "zoom"] ].

Definition macos_table (home : Path) : list Path :=
  [ sub home ["Library"; "Application Support"; "zoom.us"];
    sub home ["Library"; "Application Support"; "ZoomOpener"];
    sub home ["Library"; "Preferences"; "us.zoom.xos.plist"];
    sub home ["Library"; "Caches"; "us.zoom.xos"];
    sub home ["Library"; "Logs"; "zoom.us"];
    sub home ["Library"; "WebKit"; "us.zoom.xos"];
    sub home ["Library"; "Cookies"; "us.zoom.xos.binarycookies"] ].

Definition linux_table (home : Path) : list Path :=
  [ sub home [".config"; "zoom"];
    sub home [".cache"; "zoom"];
    sub home [".zoom"];
    sub home [".var"; "app"; "us.zoom.Zoom"];
    sub home [".cache"; "ZoomOpener"] ].

(** A machine for the examples: Linux, no variables, home [/home/u], a
    clock that stands at 2024-01-31 23:59:01, one matching process. *)
Definition example_host : Host :=
  mkHost "Linux" ∅ (mkPath "/" ["home"; "u"])
         (fun _ => mkDatetime 2024 1 31 23 59 1)
         (inr (" 1 zoom" ++ nl)) (inr EmptyString) (fun _ _ => None).

(** The record that a row of the quoted listing stands for, if any. *)
Definition tasklist_record (row : list string) : option ProcessInfo :=
  match row with
  | name_field :: rest =>
      let name := Str.strip name_field in
      if Str.is_empty name then None
      else if Str.contains "zoom" (Str.lower name) then
        match rest with
        | id_field :: _ =>
            match Str.int_of_str id_field with
            | inr n => Some (mkProcessInfo n name None)
            | inl _ => None
            end
        | [] => None
        end
      else None
  | [] => None
  end.

(** The row that the reader gives for one line read on its own. *)
Definition row_of_line (line : string) : list string :=
  match Csv.yielded (Csv.reader [line]) with
  | row :: _ => row
  | [] => []
  end.

(** The records of a quoted listing when every line is taken as one
    record, as the claim words it. *)
Definition tasklist_records_per_line (output : string) : list ProcessInfo :=
  omap (fun line => tasklist_record (row_of_line line)) (Str.splitlines output).

(** A string without line feed and carriage return. *)
Fixpoint no_newline (s : string) : bool :=
  match s with
  | EmptyString => true
  | String c s' => negb (Csv.is_newline c) && no_newline s'
  end.

Fixpoint total_length (lines : list string) : N :=
  match lines with
  | [] => 0%N
  | line :: rest => (N.of_nat (String.length line) + total_length rest)%N
  end.

Definition field_limit_error : exn :=
  CsvError "field larger than field limit (131072)".

Definition sample_tasklist : string :=
  dq ++ "Zoom.exe" ++ dq ++ "," ++ dq ++ "1234" ++ dq ++ "," ++ dq ++ dq ++ nl ++
  dq ++ "Other.exe" ++ dq ++ "," ++ dq ++ "5678" ++ dq ++ "," ++ dq ++ dq ++ nl.

(** A component as [Path] keeps it: not empty, not [.], no slash. *)
Fixpoint no_slash (s : string) : bool :=
  match s with
  | EmptyString => true
  | String c s' => negb (Ascii.eqb c Pth.slash) && no_slash s'
  end.

Definition plain_part (c : string) : bool := Pth.keep_part c && no_slash c.

(** The values of [Path] that parsing and joining give. *)
Definition wf_path (p : Path) : Prop :=
  (root p = EmptyString \/ root p = "/" \/ root p = "//")
  /\ Forall (fun c => plain_part c = true) (parts p).

(** The same world with another file system, or later on the clock. *)
Definition with_fs (n : Fs.node) (w : World) : World :=
  mkWorld n (stdout w) (stderr w) (signals w) (clock_reads w).

Definition tick (w : World) : World :=
  mkWorld (fs w) (stdout w) (stderr w) (signals w) (S (clock_reads w)).

Definition printed (lines : list string) (w : World) : World :=
  mkWorld (fs w) (stdout w ++ lines) (stderr w) (signals w) (clock_reads w).

(** A directory with the given entries. *)
Definition dir (entries : list (string * Fs.node)) : Fs.node :=
  Fs.Dir (list_to_map entries).

(** The directories of the test-suite: [/tmp/Zoom/data] holds [sample]
    and [/tmp/backup] is empty. *)
Definition tmp_fs : Fs.node :=
  dir [("tmp", dir [("Zoom", dir [("data", Fs.File "sample")]);
                    ("backup", dir [])])].

Definition world_of (n : Fs.node) : World := mkWorld n [] [] [] 0.

(** The line that a dry run prints for a record. *)
Definition would_terminate (proc : ProcessInfo) : string :=
  "Would terminate " ++ name proc ++ " (PID " ++ pretty (pid proc) ++ ")".







(** The live call [backup_and_remove(target, backup_root)] in the world
    [w] moved [target] to [dest]: it returned, reported the move, what was
    at and below [target] is at and below [dest], and [target] is gone. *)
Definition moved_to (h : Host) (target backup_root dest : Path) (w : World)
  : Prop :=
  exists w',
    backup_and_remove h target backup_root false w = (inr tt, w')
    /\ stdout w' = (stdout w ++ [("Moving " ++ Pth.to_str target
                                  ++ " to backup " ++ Pth.to_str dest)%string])%list
    /\ (forall rel, Fs.lookup (fs w') (parts dest ++ rel)
                    = Fs.lookup (fs w) (parts target ++ rel))
    /\ Fs.exists_ (fs w') (parts target) = false.

(** The string of [k] copies of a character. *)
Fixpoint copies (k : nat) (c : ascii) : string :=
  match k with
  | O => EmptyString
  | S k' => String c (copies k' c)
  end.

(** A string without whitespace. *)
Fixpoint no_space (s : string) : bool :=
  match s with
  | EmptyString => true
  | String c s' => negb (Str.isspace c) && no_space s'
  end.

(** The columnar listing of the test-suite. *)
Definition sample_ps : string :=
  "  PID COMMAND         ARGS" ++ nl ++
  " 1234 Zoom            /Applications/zoom.us/Zoom.exe" ++ nl ++
  " 4321 otherproc       /bin/other" ++ nl.

(** [n'] has all that [n] has: every file with its content and every
    directory. *)
Definition preserves (n n' : Fs.node) : Prop :=
  (forall q d, Fs.lookup n q = Some (Fs.File d) ->
               Fs.lookup n' q = Some (Fs.File d))
  /\ (forall q, Fs.is_dir n q = true -> Fs.is_dir n' q = true).

(** From [w] to [w'] no signal was sent and nothing was lost on the file
    system. *)
Definition harmless (w w' : World) : Prop :=
  signals w' = signals w /\ preserves (fs w) (fs w').

(** [n'] has no file that [n] has not. *)
Definition no_new_file (n n' : Fs.node) : Prop :=
  forall q d, Fs.lookup n' q = Some (Fs.File d) ->
              Fs.lookup n q = Some (Fs.File d).

(** What [n'] has and [n] has not is an entry of the directory [root],
    [root] itself or a directory above it. *)
Definition new_near (root : list string) (n n' : Fs.node) : Prop :=
  forall q, Fs.exists_ n' q = true ->
            Fs.exists_ n q = true
            \/ exists name, Fs.is_prefix q (root ++ [name]) = true.

(** The backup root of a run: the one requested, or
    [.zoom-reset-backups] under the home. *)
Definition effective_root (h : Host) (backup_root : option Path) : Path :=
  match backup_root with
  | Some p => p
  | None => sub (path_home h) [".zoom-reset-backups"]
  end.

(** From [w] to [w'] no signal was sent, nothing was lost on the file
    system and directories were added at most: no file is new, and what
    is new is an entry of the directory [root], [root] or above it. *)
Definition adds_directories_only (root : list string) (w w' : World) : Prop :=
  harmless w w'
  /\ no_new_file (fs w) (fs w')
  /\ new_near root (fs w) (fs w').

(** From [w] to [w'] no signal was sent. *)
Definition same_signals (w w' : World) : Prop := signals w' = signals w.

(** The computation [m] keeps the relation [R] between the world it
    starts in and the world it ends in, whether it raises or not. *)
Definition keeps (R : World -> World -> Prop) {A} (m : M A) : Prop :=
  forall w, R w (snd (m w)).

(** Two paths neither of which is at or below the other. *)
Definition apart (p q : list string) : Prop :=
  Fs.is_prefix p q = false /\ Fs.is_prefix q p = false.

(** A date whose fields fit the widths of the time stamp. *)
Definition fits_stamp (d : datetime) : Prop :=
  (year d < 10 ^ 4 /\ month d < 10 ^ 2 /\ day d < 10 ^ 2
   /\ hour d < 10 ^ 2 /\ minute d < 10 ^ 2 /\ second d < 10 ^ 2)%nat.

(* ------------------------------------------------------------------ *)

(** * Properties *)

(** ** The error monad *)

Lemma bind_ret {A B} (a : A) (k : A -> result B) : bind (ret a) k = k a.
Proof. reflexivity. Qed.

Lemma getitem_lookup {A} (l : list A) (i : nat) (a : A) :
  l !! i = Some a -> getitem l i = inr a.
Proof. intros H. unfold getitem. rewrite H. reflexivity. Qed.

(** ** Strings *)

Lemma lstrip_head s c r : Str.lstrip s = String c r -> Str.isspace c = false.
Proof.
  induction s as [|a s IH]; simpl; [discriminate|].
  destruct (Str.isspace a) eqn:Ha; [exact IH|].
  intros [= <- <-]. exact Ha.
Qed.

Lemma num_fields_lstrip s :
  num_fields_from false (Str.lstrip s) = num_fields_from false s.
Proof.
  induction s as [|a s IH]; simpl; [reflexivity|].
  destruct (Str.isspace a) eqn:Ha; [exact IH|].
  simpl. rewrite Ha. reflexivity.
Qed.

Lemma num_fields_rstrip s b :
  num_fields_from b (Str.rstrip s) = num_fields_from b s.
Proof.
  revert b. induction s as [|a s IH]; intros b; simpl; [reflexivity|].
  destruct (Str.isspace a) eqn:Ha; simpl.
  - destruct (Str.rstrip s) eqn:Hr; simpl.
    + rewrite <- (IH false). reflexivity.
    + rewrite Ha. rewrite <- (IH false). reflexivity.
  - rewrite Ha, IH. reflexivity.
Qed.

Lemma num_fields_strip s : num_fields (Str.strip s) = num_fields s.
Proof.
  unfold num_fields, Str.strip.
  rewrite num_fields_rstrip. apply num_fields_lstrip.
Qed.

Lemma num_fields_take_word s w rest :
  Str.take_word s = (w, rest) ->
  num_fields_from true s = num_fields_from false rest.
Proof.
  revert w rest. induction s as [|a s IH]; intros w rest; simpl.
  - intros [= <- <-]. reflexivity.
  - destruct (Str.isspace a) eqn:Ha.
    + intros [= <- <-]. simpl. rewrite Ha. reflexivity.
    + destruct (Str.take_word s) as [w' r'] eqn:Htw.
      intros [= <- <-]. simpl. eapply IH. reflexivity.
Qed.

(** A split never gives more fields than the line has. *)
Lemma split_ws_length_le k s : (length (Str.split_ws k s) <= num_fields s)%nat.
Proof.
  unfold num_fields. revert s.
  induction k as [|k IH]; intros s; simpl;
    rewrite <- (num_fields_lstrip s);
    destruct (Str.lstrip s) as [|c r] eqn:Hl; simpl; try lia;
    pose proof (lstrip_head _ _ _ Hl) as Hc; rewrite Hc.
  - simpl. lia.
  - destruct (Str.take_word r) as [w rest] eqn:Htw. simpl.
    rewrite (num_fields_take_word _ _ _ Htw).
    specialize (IH rest). lia.
Qed.

Lemma split_ws_length_max k s : (length (Str.split_ws k s) <= S k)%nat.
Proof.
  revert s. induction k as [|k IH]; intros s.
  - simpl. destruct (Str.is_empty (Str.lstrip s)); simpl; lia.
  - change (Str.split_ws (S k) s)
      with (let r := Str.lstrip s in
            if Str.is_empty r then []
            else let (w, rest) := Str.take_word r in w :: Str.split_ws k rest).
    cbv zeta. destruct (Str.is_empty (Str.lstrip s)); [simpl; lia|].
    destruct (Str.take_word (Str.lstrip s)) as [w rest].
    simpl length. specialize (IH rest). lia.
Qed.

(** [int] raises nothing but [ValueError]. *)
Lemma int_of_str_error s e : Str.int_of_str s = inl e -> e = ValueError.
Proof.
  unfold Str.int_of_str.
  destruct (Str.split_sign _) as [neg body].
  destruct body as [|c body']; [intros [= <-]; reflexivity|].
  destruct (Str.is_underscore c); [intros [= <-]; reflexivity|].
  destruct (Str.scan_digits _ _ _ _); [discriminate|].
  intros [= <-]. reflexivity.
Qed.

(** ** The columnar listing *)

(** The body of the loop never raises and appends what [ps_record] says. *)
Lemma parse_ps_line_record line : parse_ps_line line = inr (ps_record line).
Proof.
  unfold parse_ps_line, ps_record, ps_fields.
  destruct (Str.split_ws 2 (Str.strip line)) as [|p0 [|p1 rest]] eqn:Hs;
    try reflexivity.
  pose proof (split_ws_length_max 2 (Str.strip line)) as Hlen.
  rewrite Hs in Hlen.
  change (length (p0 :: p1 :: rest) <? 2)%nat with false.
  cbv beta iota. unfold getitem at 1. simpl lookup. cbv beta iota.
  rewrite bind_ret.
  destruct (Str.int_of_str p0) as [e|n] eqn:Hint.
  - rewrite (int_of_str_error _ _ Hint). reflexivity.
  - destruct rest as [|p2 rest']; simpl.
    + destruct (Str.contains _ _); reflexivity.
    + destruct rest'; [|simpl in Hlen; lia].
      destruct (Str.contains _ _); reflexivity.
Qed.

Lemma parse_ps_loop_omap lines acc :
  parse_ps_loop lines acc = inr (acc ++ omap ps_record lines)%list.
Proof.
  revert acc. induction lines as [|line lines IH]; intros acc; simpl.
  - rewrite app_nil_r. reflexivity.
  - rewrite parse_ps_line_record. simpl.
    destruct (ps_record line) as [p|]; rewrite IH.
    + rewrite <- app_assoc. reflexivity.
    + reflexivity.
Qed.

Lemma ps_record_short line : (num_fields line < 2)%nat -> ps_record line = None.
Proof.
  intros H. unfold ps_record, ps_fields.
  pose proof (split_ws_length_le 2 (Str.strip line)) as Hle.
  rewrite num_fields_strip in Hle.
  destruct (Str.split_ws 2 (Str.strip line)) as [|p0 [|p1 rest]];
    try reflexivity.
  simpl in Hle. lia.
Qed.

(** The lines that give a record. *)
Lemma ps_record_iff line r :
  ps_record line = Some r
  <-> exists id_field name_field rest n,
        ps_fields line = id_field :: name_field :: rest
        /\ Str.int_of_str id_field = inr n
        /\ Str.contains "zoom"
             (Str.lower (Str.join " " (name_field :: rest))) = true
        /\ r = mkProcessInfo n name_field (head rest).
Proof.
  unfold ps_record. split.
  - destruct (ps_fields line) as [|id_field [|name_field rest]];
      try discriminate.
    destruct (Str.int_of_str id_field) as [e|n] eqn:Hint; [discriminate|].
    destruct (Str.contains _ _) eqn:Hz; [|discriminate].
    intros [= <-]. exists id_field, name_field, rest, n. auto.
  - intros (id_field & name_field & rest & n & -> & -> & -> & ->). reflexivity.
Qed.

(** C2 (as amended).  For every input, [parse_ps_output] does not raise;
    every line is split into at most three fields; the result is, in the
    order of the lines, the record of every line that has at least two
    fields, whose first field is read by [int] (a sign is accepted) and
    whose other fields, joined by a blank and in lower case, contain
    [zoom]; the record carries that number, the second field as name and
    the third one, if any, as command. *)
Theorem parse_ps_output_records (output : string) :
  parse_ps_output output = inr (omap ps_record (Str.splitlines output))
  /\ Forall (fun line => (length (ps_fields line) <= 3)%nat)
            (Str.splitlines output)
  /\ (forall line r,
        ps_record line = Some r
        <-> exists id_field name_field rest n,
              ps_fields line = id_field :: name_field :: rest
              /\ Str.int_of_str id_field = inr n
              /\ Str.contains "zoom"
                   (Str.lower (Str.join " " (name_field :: rest))) = true
              /\ r = mkProcessInfo n name_field (head rest)).
Proof.
  split; [|split].
  - unfold parse_ps_output. rewrite parse_ps_loop_omap. reflexivity.
  - apply Forall_forall. intros line _. apply split_ws_length_max.
  - exact ps_record_iff.
Qed.

(** C2 (as stated) fails: the first field of [-7 zoom] is not a number
    that is not negative, and yet the line gives a record, whose id is
    negative. *)
Lemma parse_ps_output_negative_id :
  head (ps_fields "-7 zoom") = Some "-7"
  /\ ~ nonneg_int_field "-7"
  /\ parse_ps_output "-7 zoom" = inr [mkProcessInfo (-7) "zoom" None].
Proof.
  split; [reflexivity|]. split; [|reflexivity].
  intros [n [Hn Hpos]]. vm_compute in Hn. injection Hn as <-. lia.
Qed.

(** C10.  A line with fewer than two whitespace-separated fields gives no
    record: the result is the one of the listing without that line. *)
Theorem parse_ps_output_short_line (output : string)
    (before after : list string) (line : string) :
  Str.splitlines output = (before ++ line :: after)%list ->
  (num_fields line < 2)%nat ->
  parse_ps_line line = inr None
  /\ parse_ps_output output = parse_ps_loop (before ++ after)%list [].
Proof.
  intros Hlines Hshort.
  pose proof (ps_record_short line Hshort) as Hrec.
  split.
  - rewrite parse_ps_line_record, Hrec. reflexivity.
  - unfold parse_ps_output. rewrite Hlines, !parse_ps_loop_omap.
    rewrite !omap_app. simpl. rewrite Hrec. reflexivity.
Qed.

(** The line [77] alone is a valid process id and is skipped all the same. *)
Lemma parse_ps_output_short_line_witness :
  Str.int_of_str "77" = inr 77
  /\ parse_ps_line "77" = inr None
  /\ parse_ps_output ("1 zoom" ++ nl ++ "77" ++ nl ++ "2 zoom")
     = parse_ps_loop ["1 zoom"; "2 zoom"] [].
Proof.
  split; [reflexivity|].
  split.
  - apply (parse_ps_output_short_line "77" [] [] "77"); [reflexivity|].
    vm_compute. lia.
  - apply (parse_ps_output_short_line
             ("1 zoom" ++ nl ++ "77" ++ nl ++ "2 zoom")
             ["1 zoom"] ["2 zoom"] "77"); [reflexivity|].
    vm_compute. lia.
Defined.

(** ** The path catalog *)

Lemma joinpath_plain p seg :
  Pth.of_str seg = mkPath EmptyString [seg] -> p // seg = sub p [seg].
Proof. intros H. unfold Pth.joinpath. rewrite H. reflexivity. Qed.

Lemma sub_sub p xs ys : sub (sub p xs) ys = sub p (xs ++ ys).
Proof. unfold sub. simpl. rewrite <- app_assoc. reflexivity. Qed.

Lemma sub_inj p xs ys : sub p xs = sub p ys -> xs = ys.
Proof. unfold sub. intros [= H]. exact (app_inv_head _ _ _ H). Qed.

Lemma sub_inj_base a l xs : sub a xs = sub l xs -> a = l.
Proof.
  unfold sub. intros [= Hr Hp]. apply app_inv_tail in Hp.
  destruct a, l. simpl in *. congruence.
Qed.

Lemma sub_last a l xs ys :
  sub a xs = sub l ys -> last (parts a ++ xs) = last (parts l ++ ys).
Proof. unfold sub. intros [= _ ->]. reflexivity. Qed.

(** Rewrites the joins with the constant names of the catalog. *)
Ltac plain_joins :=
  repeat (rewrite joinpath_plain by reflexivity); rewrite ?sub_sub; simpl app.

Lemma append_unique_new paths p :
  p ∉ paths -> _append_unique paths p = (paths ++ [p])%list.
Proof. intros H. unfold _append_unique. rewrite decide_False by exact H. reflexivity. Qed.

Lemma append_unique_old paths p : p ∈ paths -> _append_unique paths p = paths.
Proof. intros H. unfold _append_unique. rewrite decide_True by exact H. reflexivity. Qed.

Lemma append_unique_NoDup paths p : NoDup paths -> NoDup (_append_unique paths p).
Proof.
  intros H. unfold _append_unique. destruct (decide (p ∈ paths)); [exact H|].
  apply NoDup_app. split; [exact H|]. split.
  - intros x Hx Hx'. apply list_elem_of_singleton in Hx'. subst. contradiction.
  - apply NoDup_singleton.
Qed.

Lemma fold_append_unique_NoDup cands acc :
  NoDup acc -> NoDup (fold_left _append_unique cands acc).
Proof.
  revert acc. induction cands as [|c cands IH]; intros acc H; simpl; [exact H|].
  apply IH, append_unique_NoDup, H.
Qed.

Lemma fold_append_unique_keeps cands acc p :
  p ∈ acc -> p ∈ fold_left _append_unique cands acc.
Proof.
  revert acc. induction cands as [|c cands IH]; intros acc H; simpl; [exact H|].
  apply IH. unfold _append_unique. destruct (decide (c ∈ acc)); [exact H|].
  apply elem_of_app. left. exact H.
Qed.

(** A table without repetition comes out as it is. *)
Lemma fold_append_unique_table cands acc :
  NoDup (acc ++ cands) ->
  fold_left _append_unique cands acc = (acc ++ cands)%list.
Proof.
  revert acc. induction cands as [|c cands IH]; intros acc H; simpl.
  - rewrite app_nil_r. reflexivity.
  - assert (Hc : c ∉ acc).
    { apply NoDup_app in H as (_ & Hd & _). intros Hin.
      apply (Hd c Hin). left. }
    rewrite (append_unique_new _ _ Hc).
    rewrite IH; rewrite <- app_assoc; [reflexivity|exact H].
Qed.

(** Two entries of a table differ when their last components differ. *)
Ltac distinct_entries :=
  repeat match goal with
  | |- NoDup [] => apply NoDup_nil_2
  | |- NoDup (_ :: _) => apply NoDup_cons_2
  | |- _ ∉ [] => apply not_elem_of_nil
  | |- _ ∉ _ :: _ => apply not_elem_of_cons; split
  | |- sub _ _ <> sub _ _ =>
      let H := fresh in
      intros H;
      first [ apply sub_last in H; rewrite !last_app in H; simpl in H;
              discriminate H
            | apply sub_inj in H; discriminate H
            | apply sub_inj_base in H; congruence ]
  end.

Lemma macos_table_NoDup home : NoDup (macos_table home).
Proof. unfold macos_table. distinct_entries. Qed.

Lemma linux_table_NoDup home : NoDup (linux_table home).
Proof. unfold linux_table. distinct_entries. Qed.

Lemma windows_table_NoDup a l : a <> l -> NoDup (windows_table a l).
Proof. intros Hne. unfold windows_table. distinct_entries. Qed.

Lemma zoom_paths_windows h env home :
  env <> ∅ ->
  let a := windows_base env home "APPDATA" ["AppData"; "Roaming"] in
  let l := windows_base env home "LOCALAPPDATA" ["AppData"; "Local"] in
  zoom_paths h "windows" (Some env) (Some home)
  = inr (if decide (a = l)
         then [ sub a ["Zoom"]; sub a ["zoom.us"]; sub a ["ZoomOpener"];
                sub a ["Temp"; "zoom"] ]
         else windows_table a l).
Proof.
  intros Hne a l. unfold zoom_paths.
  rewrite (decide_False (P := env = ∅)) by exact Hne.
  change (String.eqb "windows" "windows") with true. cbv iota.
  assert (Ha : match env !! "APPDATA" with
               | Some v => Pth.of_str v
               | None => home // "AppData" // "Roaming"
               end = a).
  { unfold a, windows_base. destruct (env !! "APPDATA"); [reflexivity|].
    plain_joins. reflexivity. }
  assert (Hl : match env !! "LOCALAPPDATA" with
               | Some v => Pth.of_str v
               | None => home // "AppData" // "Local"
               end = l).
  { unfold l, windows_base. destruct (env !! "LOCALAPPDATA"); [reflexivity|].
    plain_joins. reflexivity. }
  rewrite Ha, Hl. clearbody a l. clear Ha Hl.
  plain_joins. f_equal.
  destruct (decide (a = l)) as [->|Hal].
  - simpl fold_left.
    rewrite (append_unique_new []) by distinct_entries. simpl app.
    rewrite (append_unique_old [_]) by (apply list_elem_of_here).
    rewrite (append_unique_new [_]) by distinct_entries. simpl app.
    rewrite (append_unique_old [_; _])
      by (apply list_elem_of_further, list_elem_of_here).
    rewrite (append_unique_new [_; _]) by distinct_entries. simpl app.
    rewrite (append_unique_new [_; _; _]) by distinct_entries. reflexivity.
  - apply (fold_append_unique_table _ []). simpl app.
    apply windows_table_NoDup, Hal.
Qed.

Lemma zoom_paths_macos h env home :
  zoom_paths h "macos" env (Some home) = inr (macos_table home).
Proof.
  unfold zoom_paths.
  change (String.eqb "macos" "windows") with false.
  change (String.eqb "macos" "macos") with true. cbv iota.
  plain_joins. f_equal.
  apply (fold_append_unique_table _ []), macos_table_NoDup.
Qed.

Lemma zoom_paths_linux h env home :
  zoom_paths h "linux" env (Some home) = inr (linux_table home).
Proof.
  unfold zoom_paths.
  change (String.eqb "linux" "windows") with false.
  change (String.eqb "linux" "macos") with false.
  change (String.eqb "linux" "linux") with true. cbv iota.
  plain_joins. f_equal.
  apply (fold_append_unique_table _ []), linux_table_NoDup.
Qed.

Lemma fold_append_unique_nonempty c cands :
  fold_left _append_unique (c :: cands) [] <> []
  /\ NoDup (fold_left _append_unique (c :: cands) []).
Proof.
  split; [|apply fold_append_unique_NoDup, NoDup_nil_2].
  intros Hnil.
  assert (Hin : c ∈ fold_left _append_unique (c :: cands) []).
  { simpl. apply fold_append_unique_keeps. rewrite append_unique_new.
    - apply list_elem_of_here.
    - apply not_elem_of_nil. }
  rewrite Hnil in Hin. exact (not_elem_of_nil _ Hin).
Qed.

(** Whatever the arguments, a catalog that is returned is non-empty and
    without repetition. *)
Lemma zoom_paths_NoDup h system_name env home paths :
  zoom_paths h system_name env home = inr paths ->
  paths <> [] /\ NoDup paths.
Proof.
  unfold zoom_paths.
  repeat match goal with
         | |- context [String.eqb system_name ?s] =>
             destruct (String.eqb system_name s)
         end;
    try discriminate;
    intros H;
    apply (f_equal (fun r : result (list Path) =>
                      match r with inr x => x | inl _ => [] end)) in H;
    cbv beta iota in H; rewrite <- H;
    apply fold_append_unique_nonempty.
Qed.

(** C4 (as amended).  With a home directory and a non-empty environment
    mapping as arguments, the catalog of each supported platform is a
    function of these two alone (the machine [h] does not occur in the
    result and no file system is read): on windows the table of six
    entries under the two bases taken from [APPDATA] and [LOCALAPPDATA],
    or from the fallbacks under the home when a variable is absent, all
    six when the bases differ and the four distinct ones when the bases
    are the same path; on macos the seven entries under [home/Library];
    on linux the five entries under the home.  Every catalog is non-empty
    and without repetition. *)
Theorem zoom_paths_tables (h : Host) (env : gmap string string) (home : Path) :
  env <> ∅ ->
  let a := windows_base env home "APPDATA" ["AppData"; "Roaming"] in
  let l := windows_base env home "LOCALAPPDATA" ["AppData"; "Local"] in
  zoom_paths h "windows" (Some env) (Some home)
  = inr (if decide (a = l)
         then [ sub a ["Zoom"]; sub a ["zoom.us"]; sub a ["ZoomOpener"];
                sub a ["Temp"; "zoom"] ]
         else windows_table a l)
  /\ zoom_paths h "macos" (Some env) (Some home) = inr (macos_table home)
  /\ zoom_paths h "linux" (Some env) (Some home) = inr (linux_table home)
  /\ (forall system_name paths,
        zoom_paths h system_name (Some env) (Some home) = inr paths ->
        paths <> [] /\ NoDup paths).
Proof.
  intros Hne a l. split; [exact (zoom_paths_windows h env home Hne)|].
  split; [apply zoom_paths_macos|]. split; [apply zoom_paths_linux|].
  intros system_name paths. apply zoom_paths_NoDup.
Qed.

(** The scenario of the test-suite: [APPDATA=/tmp/roam] and
    [LOCALAPPDATA=/tmp/local]. *)
Lemma zoom_paths_tables_witness :
  zoom_paths example_host "windows"
    (Some (<["APPDATA" := "/tmp/roam"]> (<["LOCALAPPDATA" := "/tmp/local"]> ∅)))
    (Some (mkPath "/" ["unused"]))
  = inr [ mkPath "/" ["tmp"; "roam"; "Zoom"];
          mkPath "/" ["tmp"; "local"; "Zoom"];
          mkPath "/" ["tmp"; "roam"; "zoom.us"];
          mkPath "/" ["tmp"; "local"; "zoom.us"];
          mkPath "/" ["tmp"; "local"; "ZoomOpener"];
          mkPath "/" ["tmp"; "local"; "Temp"; "zoom"] ].
Proof.
  refine (eq_trans
            (proj1 (zoom_paths_tables example_host
                      (<["APPDATA" := "/tmp/roam"]>
                         (<["LOCALAPPDATA" := "/tmp/local"]> ∅))
                      (mkPath "/" ["unused"]) _)) _).
  - intros H. apply (f_equal (fun m => m !! "APPDATA")) in H.
    vm_compute in H. discriminate H.
  - vm_compute. reflexivity.
Defined.

(** C4 (as stated) fails: when both variables name the same directory the
    windows catalog has four entries, not six. *)
Lemma zoom_paths_windows_same_base :
  zoom_paths example_host "windows"
    (Some (<["APPDATA" := "/x"]> (<["LOCALAPPDATA" := "/x"]> ∅)))
    (Some (mkPath "/" ["unused"]))
  = inr [ mkPath "/" ["x"; "Zoom"]; mkPath "/" ["x"; "zoom.us"];
          mkPath "/" ["x"; "ZoomOpener"]; mkPath "/" ["x"; "Temp"; "zoom"] ].
Proof. vm_compute. reflexivity. Qed.

(** An empty mapping given as [env] is not used: the catalog is read from
    the environment of the process, so that the same arguments give
    different catalogs on different machines. *)
Lemma zoom_paths_empty_env :
  let h1 := example_host in
  let h2 := mkHost "Linux" (<["APPDATA" := "/x"]> ∅) (path_home h1) (clock h1)
                   (ps_listing h1) (tasklist_listing h1) (os_kill h1) in
  let home := mkPath "/" ["h"] in
  zoom_paths h1 "windows" (Some ∅) (Some home)
  = inr (windows_table (mkPath "/" ["h"; "AppData"; "Roaming"])
                       (mkPath "/" ["h"; "AppData"; "Local"]))
  /\ zoom_paths h2 "windows" (Some ∅) (Some home)
     = inr (windows_table (mkPath "/" ["x"])
                          (mkPath "/" ["h"; "AppData"; "Local"])).
Proof. split; vm_compute; reflexivity. Qed.

(** C7.  A platform identifier other than the three supported ones makes
    [zoom_paths] raise [UnsupportedSystemError]; nothing is returned. *)
Theorem zoom_paths_unsupported (h : Host) (system_name : string)
    (env : option (gmap string string)) (home : option Path) :
  system_name <> "windows" -> system_name <> "macos" ->
  system_name <> "linux" ->
  zoom_paths h system_name env home = inl (UnsupportedSystemError system_name).
Proof.
  intros Hw Hm Hl. unfold zoom_paths.
  apply String.eqb_neq in Hw, Hm, Hl. rewrite Hw, Hm, Hl. reflexivity.
Qed.

Lemma zoom_paths_unsupported_witness :
  zoom_paths example_host "freebsd" None None
  = inl (UnsupportedSystemError "freebsd").
Proof.
  apply zoom_paths_unsupported; intros H; discriminate H.
Defined.

(** ** The quoted listing *)

Lemma parse_tasklist_row_record row :
  parse_tasklist_row row = inr (tasklist_record row).
Proof.
  destruct row as [|r0 rest]; [reflexivity|].
  unfold parse_tasklist_row, tasklist_record.
  unfold getitem at 1. simpl lookup. cbv beta iota. rewrite bind_ret.
  cbv zeta.
  destruct (Str.is_empty (Str.strip r0)); [reflexivity|].
  destruct (Str.contains "zoom" (Str.lower (Str.strip r0))); [|reflexivity].
  simpl negb. cbv iota.
  destruct rest as [|r1 rest']; [reflexivity|].
  change (1 <? length (r0 :: r1 :: rest'))%nat with true. cbv iota.
  unfold getitem. simpl lookup. cbv beta iota. rewrite bind_ret.
  destruct (Str.int_of_str r1) as [e|n] eqn:Hint; simpl.
  - rewrite (int_of_str_error _ _ Hint). reflexivity.
  - reflexivity.
Qed.

Lemma parse_tasklist_loop_omap rows stop acc :
  parse_tasklist_loop rows stop acc
  = match stop with
    | None => inr (acc ++ omap tasklist_record rows)%list
    | Some e => inl e
    end.
Proof.
  revert acc. induction rows as [|row rows IH]; intros acc; simpl.
  - rewrite app_nil_r. destruct stop; reflexivity.
  - rewrite parse_tasklist_row_record. simpl.
    destruct (tasklist_record row) as [p|]; rewrite IH; [|reflexivity].
    rewrite <- app_assoc. reflexivity.
Qed.

(** *** The reader raises only at the field size limit *)

Lemma process_char_cases c r :
  Csv.state r <> Csv.EAT_CRNL -> Csv.is_newline c = false ->
  (exists r', Csv.parse_process_char (Some c) r = inr r'
              /\ Csv.state r' <> Csv.EAT_CRNL
              /\ (Csv.field_len r' <= Csv.field_len r + 1)%N)
  \/ (Csv.parse_process_char (Some c) r = inl field_limit_error
      /\ (Csv.field_limit <= Csv.field_len r)%N).
Proof.
  intros Hst Hnl.
  unfold Csv.parse_process_char, Csv.parse_add_char, Csv.set_state,
    Csv.parse_save_field.
  rewrite Hnl. simpl.
  destruct (N.leb_spec Csv.field_limit (Csv.field_len r)) as [Hle|Hlt];
    destruct (Csv.state r) eqn:E; try contradiction;
    repeat match goal with
           | |- context [if ?b then _ else _] => destruct b
           end;
    simpl;
    first [ right; split; [reflexivity|assumption]
          | left; eexists; split; [reflexivity|];
            split; [simpl; discriminate|simpl; lia] ].
Qed.

Lemma process_eol r :
  exists r', Csv.parse_process_char None r = inr r'
             /\ Csv.state r' <> Csv.EAT_CRNL
             /\ (Csv.field_len r' <= Csv.field_len r)%N.
Proof.
  unfold Csv.parse_process_char, Csv.set_state, Csv.parse_save_field.
  destruct (Csv.state r) eqn:E; simpl;
    eexists; (split; [reflexivity|]); simpl; rewrite ?E;
    (split; [discriminate|lia]).
Qed.

Lemma feed_cases line r :
  no_newline line = true -> Csv.state r <> Csv.EAT_CRNL ->
  (exists r', Csv.feed line r = inr r'
              /\ Csv.state r' <> Csv.EAT_CRNL
              /\ (Csv.field_len r'
                  <= Csv.field_len r + N.of_nat (String.length line))%N)
  \/ (Csv.feed line r = inl field_limit_error
      /\ (Csv.field_limit
          < Csv.field_len r + N.of_nat (String.length line))%N).
Proof.
  revert r. induction line as [|c line IH]; intros r Hnl Hst.
  - left. exists r. split; [reflexivity|]. split; [exact Hst|]. simpl. lia.
  - simpl in Hnl. apply andb_prop in Hnl as [Hc Hrest].
    apply negb_true_iff in Hc.
    change (Csv.feed (String c line) r)
      with (bind (Csv.parse_process_char (Some c) r) (Csv.feed line)).
    change (String.length (String c line)) with (S (String.length line)).
    destruct (process_char_cases c r Hst Hc)
      as [(r1 & -> & Hst1 & Hlen1)| [-> Hlim]].
    + simpl bind.
      destruct (IH r1 Hrest Hst1) as [(r2 & -> & Hst2 & Hlen2)| [-> Hlim]].
      * left. exists r2. split; [reflexivity|]. split; [exact Hst2|]. lia.
      * right. split; [reflexivity|]. lia.
    + right. split; [reflexivity|]. lia.
Qed.

Lemma reader_rows_cases lines r :
  Forall (fun line => no_newline line = true) lines ->
  Csv.state r <> Csv.EAT_CRNL ->
  Csv.stopped (Csv.reader_rows lines r) = None
  \/ (Csv.stopped (Csv.reader_rows lines r) = Some field_limit_error
      /\ (Csv.field_limit < Csv.field_len r + total_length lines)%N).
Proof.
  intros Hall. revert r.
  induction Hall as [|line lines Hline Hall IH]; intros r Hst.
  - left. simpl. destruct (_ || _); reflexivity.
  - simpl.
    destruct (feed_cases line r Hline Hst)
      as [(r1 & -> & Hst1 & Hlen1)| [-> Hlim]].
    + simpl bind.
      destruct (process_eol r1) as (r2 & -> & Hst2 & Hlen2).
      destruct (Csv.is_state (Csv.state r2) Csv.START_RECORD).
      * simpl Csv.stopped.
        destruct (IH (Csv.parse_reset r2)) as [H|[H Hlim]];
          [discriminate|left; exact H|].
        right. split; [exact H|]. simpl in Hlim. lia.
      * destruct (IH r2 Hst2) as [H|[H Hlim]]; [left; exact H|].
        right. split; [exact H|]. lia.
    + right. simpl. split; [reflexivity|]. lia.
Qed.

Lemma newline_is_linebreak c :
  Str.is_linebreak c = false -> Csv.is_newline c = false.
Proof.
  unfold Str.is_linebreak, Csv.is_newline, Str.is_lf, Str.is_cr.
  intros H.
  destruct (N.eqb_spec (Str.ord c) 10) as [E|_];
    [rewrite E in H; discriminate H|].
  destruct (N.eqb_spec (Str.ord c) 13) as [E|_];
    [rewrite E in H; discriminate H|].
  reflexivity.
Qed.

(** The lines of a text hold no line boundary and are not longer,
    together, than the text. *)
Lemma splitlines_lines n s :
  (String.length s <= n)%nat ->
  Forall (fun line => no_newline line = true) (Str.splitlines s)
  /\ (total_length (Str.splitlines s) <= N.of_nat (String.length s))%N.
Proof.
  revert s. induction n as [|n IH]; intros s Hn.
  - destruct s; [|simpl in Hn; lia]. simpl. split; [constructor|lia].
  - destruct s as [|c s']; [simpl; split; [constructor|lia]|].
    simpl in Hn. assert (Hn' : (String.length s' <= n)%nat) by lia.
    destruct (IH s' Hn') as [Hall Htot].
    change (String.length (String c s')) with (S (String.length s')).
    simpl Str.splitlines.
    destruct (Str.is_linebreak c) eqn:Hc.
    + destruct s' as [|c2 s'']; [simpl; split; [repeat constructor|lia]|].
      destruct (Str.is_cr c && Str.is_lf c2).
      * simpl in Hn'.
        destruct (IH s'') as [Hall2 Htot2]; [lia|].
        split; [constructor; [reflexivity|exact Hall2]|].
        simpl total_length. simpl String.length. lia.
      * remember (Str.splitlines (String c2 s'')) as rest.
        split; [constructor; [reflexivity|exact Hall]|].
        simpl total_length. simpl String.length in *. lia.
    + apply newline_is_linebreak in Hc.
      destruct (Str.splitlines s') as [|l ls].
      * split; [repeat constructor; simpl; rewrite Hc; reflexivity|].
        simpl. lia.
      * inversion Hall as [|? ? Hl Hls]; subst.
        split.
        -- constructor; [simpl; rewrite Hc, Hl; reflexivity|exact Hls].
        -- simpl total_length in *. simpl String.length. lia.
Qed.

(** *** Stripping does not change whether the name matches *)

Lemma isspace_lower c : Str.isspace (Str.lower_char c) = Str.isspace c.
Proof. destruct c as [[] [] [] [] [] [] [] []]; vm_compute; reflexivity. Qed.

Lemma is_empty_lower s : Str.is_empty (Str.lower s) = Str.is_empty s.
Proof. destruct s; reflexivity. Qed.

Lemma lower_lstrip s : Str.lower (Str.lstrip s) = Str.lstrip (Str.lower s).
Proof.
  induction s as [|c s IH]; [reflexivity|].
  change (Str.lstrip (Str.lower (String c s)))
    with (if Str.isspace (Str.lower_char c) then Str.lstrip (Str.lower s)
          else String (Str.lower_char c) (Str.lower s)).
  rewrite isspace_lower. simpl Str.lstrip.
  destruct (Str.isspace c); [exact IH|reflexivity].
Qed.

Lemma lower_rstrip s : Str.lower (Str.rstrip s) = Str.rstrip (Str.lower s).
Proof.
  induction s as [|c s IH]; [reflexivity|].
  change (Str.rstrip (Str.lower (String c s)))
    with (if Str.isspace (Str.lower_char c)
             && Str.is_empty (Str.rstrip (Str.lower s))
          then EmptyString
          else String (Str.lower_char c) (Str.rstrip (Str.lower s))).
  rewrite isspace_lower, <- IH, is_empty_lower. simpl Str.rstrip.
  destruct (Str.isspace c && Str.is_empty (Str.rstrip s)); reflexivity.
Qed.

Lemma lower_strip s : Str.lower (Str.strip s) = Str.strip (Str.lower s).
Proof. unfold Str.strip. rewrite lower_rstrip, lower_lstrip. reflexivity. Qed.

Lemma contains_cons needle c t :
  Str.contains needle (String c t)
  = String.prefix needle (String c t) || Str.contains needle t.
Proof. reflexivity. Qed.

Lemma prefix_cons_r a s t :
  String.prefix (String a s) t
  = match t with
    | EmptyString => false
    | String b t' => if ascii_dec a b then String.prefix s t' else false
    end.
Proof. destruct t; reflexivity. Qed.

Lemma prefix_space n ns c t :
  Str.isspace n = false -> Str.isspace c = true ->
  String.prefix (String n ns) (String c t) = false.
Proof.
  intros Hn Hc. rewrite prefix_cons_r.
  destruct (ascii_dec n c) as [->|_]; [congruence|reflexivity].
Qed.

Lemma contains_lstrip n ns s :
  Str.isspace n = false ->
  Str.contains (String n ns) (Str.lstrip s) = Str.contains (String n ns) s.
Proof.
  intros Hn. induction s as [|c s IH]; [reflexivity|].
  simpl Str.lstrip. destruct (Str.isspace c) eqn:Hc; [|reflexivity].
  rewrite IH, (contains_cons _ c s), (prefix_space _ _ _ _ Hn Hc). reflexivity.
Qed.

Lemma rstrip_cons c s :
  Str.rstrip (String c s)
  = if Str.isspace c && Str.is_empty (Str.rstrip s) then EmptyString
    else String c (Str.rstrip s).
Proof. reflexivity. Qed.

Lemma prefix_rstrip needle s :
  no_space needle = true ->
  String.prefix needle (Str.rstrip s) = String.prefix needle s.
Proof.
  revert s. induction needle as [|n ns IH]; intros s Hns.
  - destruct s, (Str.rstrip _); reflexivity.
  - simpl in Hns. apply andb_prop in Hns as [Hn Hns].
    apply negb_true_iff in Hn.
    destruct s as [|c s]; [reflexivity|]. rewrite rstrip_cons.
    destruct (Str.isspace c && Str.is_empty (Str.rstrip s)) eqn:E.
    + apply andb_prop in E as [Hc _].
      rewrite (prefix_space _ _ _ _ Hn Hc). reflexivity.
    + rewrite !prefix_cons_r. rewrite (IH s Hns). reflexivity.
Qed.

Lemma contains_rstrip n ns s :
  no_space (String n ns) = true ->
  Str.contains (String n ns) (Str.rstrip s) = Str.contains (String n ns) s.
Proof.
  intros Hns. induction s as [|c s IH]; [reflexivity|].
  pose proof (prefix_rstrip _ (String c s) Hns) as Hp.
  rewrite rstrip_cons in Hp |- *.
  destruct (Str.isspace c && Str.is_empty (Str.rstrip s)) eqn:E.
  - apply andb_prop in E as [Hc He].
    rewrite contains_cons, <- Hp, <- IH.
    destruct (Str.rstrip s); [reflexivity|discriminate He].
  - rewrite !contains_cons, Hp, IH. reflexivity.
Qed.

(** A name contains [zoom] in any case exactly when the stripped name
    does. *)
Lemma zoom_in_stripped s :
  Str.contains "zoom" (Str.lower (Str.strip s))
  = Str.contains "zoom" (Str.lower s).
Proof.
  rewrite lower_strip. unfold Str.strip.
  rewrite contains_rstrip by reflexivity.
  apply contains_lstrip. reflexivity.
Qed.

(** The rows that give a record: the name field is not empty and
    contains [zoom] in any case, and the id field is there and [int]
    reads it. *)
Lemma tasklist_record_iff row r :
  tasklist_record row = Some r
  <-> exists name_field id_field rest n,
        row = name_field :: id_field :: rest
        /\ name_field <> EmptyString
        /\ Str.contains "zoom" (Str.lower name_field) = true
        /\ Str.int_of_str id_field = inr n
        /\ r = mkProcessInfo n (Str.strip name_field) None.
Proof.
  unfold tasklist_record. split.
  - destruct row as [|name_field rest]; [discriminate|].
    destruct (Str.is_empty (Str.strip name_field)); [discriminate|].
    destruct (Str.contains "zoom" (Str.lower (Str.strip name_field))) eqn:Hz;
      [|discriminate].
    destruct rest as [|id_field rest]; [discriminate|].
    destruct (Str.int_of_str id_field) as [e|n] eqn:Hint; [discriminate|].
    intros [= <-]. rewrite zoom_in_stripped in Hz.
    exists name_field, id_field, rest, n.
    split; [reflexivity|]. split; [|auto].
    intros ->. discriminate Hz.
  - intros (name_field & id_field & rest & n & -> & _ & Hz & Hint & ->).
    rewrite <- zoom_in_stripped in Hz. rewrite Hz, Hint.
    destruct (Str.strip name_field); [discriminate Hz|reflexivity].
Qed.

(** C5 (as amended).  [parse_tasklist_output] reads the lines as rows of
    comma-separated quoted fields, where a quoted field that is open at
    the end of a line goes on in the next line.  It raises only when the
    reader does, which is only when a field grows beyond the field size
    limit and never for a listing of at most 131072 characters.
    Otherwise it returns, in the order of the rows, a record for exactly
    the rows whose first field is non-empty and contains [zoom] in any
    case and whose second field is present and read by [int]; the record
    has that number as id and the first field, without surrounding
    whitespace, as name. *)
Theorem parse_tasklist_output_records (output : string) :
  let it := Csv.reader (Str.splitlines output) in
  (parse_tasklist_output output
   = match Csv.stopped it with
     | None => inr (omap tasklist_record (Csv.yielded it))
     | Some e => inl e
     end
   /\ (Csv.stopped it = None \/ Csv.stopped it = Some field_limit_error)
   /\ ((N.of_nat (String.length output) <= Csv.field_limit)%N ->
       Csv.stopped it = None))
  /\ (forall row r,
        tasklist_record row = Some r
        <-> exists name_field id_field rest n,
              row = name_field :: id_field :: rest
              /\ name_field <> EmptyString
              /\ Str.contains "zoom" (Str.lower name_field) = true
              /\ Str.int_of_str id_field = inr n
              /\ r = mkProcessInfo n (Str.strip name_field) None).
Proof.
  intros it. split; [|exact tasklist_record_iff].
  destruct (splitlines_lines (String.length output) output (le_n _))
    as [Hall Htot].
  assert (Hcases := reader_rows_cases (Str.splitlines output)
                      (Csv.mkReader [] Csv.START_RECORD EmptyString 0) Hall).
  fold (Csv.reader (Str.splitlines output)) in Hcases. fold it in Hcases.
  specialize (Hcases ltac:(simpl; discriminate)). simpl in Hcases.
  split; [|split].
  - unfold parse_tasklist_output. fold it.
    rewrite parse_tasklist_loop_omap. reflexivity.
  - destruct Hcases as [H|[H _]]; [left|right]; exact H.
  - intros Hlen. destruct Hcases as [H|[_ Hlim]]; [exact H|]. lia.
Qed.

(** The listing of the test-suite. *)
Lemma parse_tasklist_output_records_witness :
  Csv.stopped (Csv.reader (Str.splitlines sample_tasklist)) = None
  /\ parse_tasklist_output sample_tasklist
     = inr [mkProcessInfo 1234 "Zoom.exe" None].
Proof.
  destruct (parse_tasklist_output_records sample_tasklist)
    as ((Hres & _ & Hok) & _).
  assert (Hstop := Hok ltac:(vm_compute; discriminate)).
  split; [exact Hstop|].
  rewrite Hres, Hstop. vm_compute. reflexivity.
Defined.

(** C5 (as stated) fails: a line is not always a record of its own.  The
    two lines below are one row, the id of which is in neither line. *)
Lemma parse_tasklist_output_open_quote :
  let output := "zoom," ++ dq ++ "1" ++ nl ++ "2" ++ dq in
  Str.splitlines output = ["zoom," ++ dq ++ "1"; "2" ++ dq]
  /\ parse_tasklist_output output = inr [mkProcessInfo 12 "zoom" None]
  /\ tasklist_records_per_line output = [mkProcessInfo 1 "zoom" None].
Proof. repeat split; vm_compute; reflexivity. Qed.

(** ** The file system *)

Section FsLemmas.

Import Fs.

Lemma lookup_walk n p x : lookup n p = Some x <-> walk n p = inr x.
Proof.
  unfold lookup. destruct (walk n p); split; congruence.
Qed.

Lemma lookup_nil n : lookup n [] = Some n.
Proof. reflexivity. Qed.

Lemma lookup_cons es c p :
  lookup (Dir es) (c :: p)
  = match es !! c with Some ch => lookup ch p | None => None end.
Proof. unfold lookup. simpl. destruct (es !! c); reflexivity. Qed.

Lemma lookup_cons_file d c p : lookup (File d) (c :: p) = None.
Proof. reflexivity. Qed.

Lemma lookup_app n p q :
  lookup n (p ++ q)
  = match lookup n p with Some x => lookup x q | None => None end.
Proof.
  revert n. induction p as [|c p IH]; intros n; [reflexivity|].
  simpl app. destruct n as [d|es]; [reflexivity|].
  rewrite !lookup_cons. destruct (es !! c); [apply IH|reflexivity].
Qed.

Lemma is_dir_lookup n p : is_dir n p = true <-> exists es, lookup n p = Some (Dir es).
Proof.
  unfold is_dir. destruct (lookup n p) as [[d|es]|]; split;
    try discriminate; try (intros [? ?]; discriminate); eauto.
Qed.

Lemma exists_lookup n p : exists_ n p = true <-> is_Some (lookup n p).
Proof.
  unfold exists_. destruct (lookup n p); split; try discriminate; eauto.
  intros [? ?]. discriminate.
Qed.

Lemma is_prefix_nil_r p : is_prefix p [] = true -> p = [].
Proof. destruct p; [reflexivity|discriminate]. Qed.

Lemma is_prefix_snoc p b x :
  is_prefix p (b ++ [x]) = true -> is_prefix p b = true \/ p = (b ++ [x])%list.
Proof.
  revert b. induction p as [|c p IH]; intros b H; [left; reflexivity|].
  destruct b as [|d b]; simpl in *.
  - apply andb_prop in H as [Hc Hp]. apply String.eqb_eq in Hc as ->.
    apply is_prefix_nil_r in Hp as ->. right. reflexivity.
  - apply andb_prop in H as [Hc Hp]. apply String.eqb_eq in Hc as ->.
    rewrite String.eqb_refl. simpl.
    destruct (IH b Hp) as [H | ->]; [left; exact H|right; reflexivity].
Qed.

(** What lies above an existing path exists. *)
Lemma lookup_prefix n p q :
  is_prefix p q = true -> is_Some (lookup n q) -> is_Some (lookup n p).
Proof.
  revert n q. induction p as [|c p IH]; intros n q Hpre Hq; [eauto|].
  destruct q as [|d q]; [discriminate|]. simpl in Hpre.
  apply andb_prop in Hpre as [Hc Hp]. apply String.eqb_eq in Hc as ->.
  destruct n as [dd|es]; [destruct Hq; discriminate|].
  rewrite lookup_cons in *. destruct (es !! d); [|exact Hq].
  exact (IH _ _ Hp Hq).
Qed.

Lemma set_at_dir p v n n' : set_at p v n = Some n' -> exists es es', n = Dir es /\ n' = Dir es'.
Proof.
  destruct p as [|c p]; [discriminate|]. destruct n as [d|es]; [discriminate|].
  simpl. destruct p.
  - intros [= <-]. eauto.
  - destruct (es !! c); [|discriminate].
    destruct (set_at _ _ _); [|discriminate]. intros [= <-]. eauto.
Qed.

Lemma set_at_lookup_same p v n n' : set_at p v n = Some n' -> lookup n' p = v.
Proof.
  revert n n'. induction p as [|c p IH]; intros n n'; [discriminate|].
  destruct n as [d|es]; [discriminate|]. simpl.
  destruct p as [|c' p'].
  - intros [= <-]. rewrite lookup_cons. destruct v as [x|].
    + rewrite lookup_insert_eq. reflexivity.
    + rewrite lookup_delete_eq. reflexivity.
  - destruct (es !! c) as [ch|]; [|discriminate].
    destruct (set_at (c' :: p') v ch) as [ch'|] eqn:Hs; [|discriminate].
    intros [= <-]. rewrite lookup_cons, lookup_insert_eq.
    exact (IH _ _ Hs).
Qed.

(** A change at [p] is not seen at a path that is neither above nor
    below [p]. *)
Lemma set_at_lookup_other p v n n' q :
  set_at p v n = Some n' ->
  is_prefix p q = false -> is_prefix q p = false ->
  lookup n' q = lookup n q.
Proof.
  revert n n' q. induction p as [|c p IH]; intros n n' q; [discriminate|].
  destruct n as [d|es]; [discriminate|].
  destruct q as [|e q]; [discriminate|].
  simpl. destruct (String.eqb_spec c e) as [<-|Hne].
  - rewrite String.eqb_refl. simpl.
    destruct p as [|c' p']; [discriminate|].
    destruct (es !! c) as [ch|] eqn:Hc; [|discriminate].
    destruct (set_at (c' :: p') v ch) as [ch'|] eqn:Hs; [|discriminate].
    intros [= <-] Hpq Hqp.
    rewrite !lookup_cons, lookup_insert_eq, Hc.
    exact (IH _ _ _ Hs Hpq Hqp).
  - intros Hs _ _.
    destruct p as [|c' p'].
    + injection Hs as <-. rewrite !lookup_cons. destruct v.
      * rewrite lookup_insert_ne by exact Hne. reflexivity.
      * rewrite lookup_delete_ne by exact Hne. reflexivity.
    + destruct (es !! c) as [ch|]; [|discriminate].
      destruct (set_at (c' :: p') v ch) as [ch'|]; [|discriminate].
      injection Hs as <-. rewrite !lookup_cons.
      rewrite lookup_insert_ne by exact Hne. reflexivity.
Qed.

(** A change at [p] leaves the directories that are not below [p]. *)
Lemma set_at_is_dir p v n n' q :
  set_at p v n = Some n' -> is_prefix p q = false ->
  is_dir n' q = is_dir n q.
Proof.
  revert n n' q. induction p as [|c p IH]; intros n n' q; [discriminate|].
  destruct q as [|e q].
  - intros Hs _. destruct (set_at_dir _ _ _ _ Hs) as (es & es' & -> & ->).
    reflexivity.
  - destruct n as [d|es]; [discriminate|].
    simpl. destruct (String.eqb_spec c e) as [<-|Hne].
    + simpl. destruct p as [|c' p']; [discriminate|].
      destruct (es !! c) as [ch|] eqn:Hc; [|discriminate].
      destruct (set_at (c' :: p') v ch) as [ch'|] eqn:Hs; [|discriminate].
      intros [= <-] Hpq. unfold is_dir.
      rewrite !lookup_cons, lookup_insert_eq, Hc.
      exact (IH _ _ _ Hs Hpq).
    + intros Hs _. unfold is_dir.
      destruct p as [|c' p'].
      * injection Hs as <-. rewrite !lookup_cons. destruct v.
        -- rewrite lookup_insert_ne by exact Hne. reflexivity.
        -- rewrite lookup_delete_ne by exact Hne. reflexivity.
      * destruct (es !! c) as [ch|]; [|discriminate].
        destruct (set_at (c' :: p') v ch) as [ch'|]; [|discriminate].
        injection Hs as <-. rewrite !lookup_cons.
        rewrite lookup_insert_ne by exact Hne. reflexivity.
Qed.

(** An entry can be written or removed in every existing directory. *)
Lemma set_at_in_dir b x v n :
  is_dir n b = true -> is_Some (set_at (b ++ [x]) v n).
Proof.
  revert n. induction b as [|c b IH]; intros n H.
  - apply is_dir_lookup in H as [es H]. injection H as ->. simpl. eauto.
  - apply is_dir_lookup in H as [es' H].
    destruct n as [d|es]; [discriminate|].
    rewrite lookup_cons in H. simpl.
    destruct (es !! c) as [ch|] eqn:Hc; [|discriminate].
    assert (Hch : is_dir ch b = true) by (apply is_dir_lookup; eauto).
    destruct (IH ch Hch) as [ch' Hs]. rewrite Hs.
    destruct (b ++ [x])%list eqn:Hb; [destruct b; discriminate|]. eauto.
Qed.

Lemma lookup_snoc_parent n b x s :
  lookup n (b ++ [x]) = Some s -> is_dir n b = true.
Proof.
  rewrite lookup_app. unfold is_dir.
  destruct (lookup n b) as [[d|es]|]; [discriminate|reflexivity|discriminate].
Qed.

Lemma parent_snoc (b : list string) x : parent (b ++ [x]) = b.
Proof. unfold parent. apply removelast_last. Qed.

(** [os.rename] of an existing entry to a free name in an existing
    directory that is not below the entry. *)
Lemma os_rename_free n src b x s :
  lookup n src = Some s ->
  lookup n (b ++ [x]) = None ->
  is_dir n b = true ->
  is_prefix src b = false ->
  exists n', os_rename src (b ++ [x]) n = inr n'
    /\ lookup n' (b ++ [x]) = Some s
    /\ lookup n' src = None
    /\ (forall q, is_prefix src q = false -> is_prefix q src = false ->
                  is_prefix (b ++ [x]) q = false ->
                  is_prefix q (b ++ [x]) = false ->
                  lookup n' q = lookup n q).
Proof.
  intros Hsrc Hdst Hb Hpre.
  assert (Hne : src <> (b ++ [x])%list) by congruence.
  assert (Hpre1 : is_prefix src (b ++ [x]) = false).
  { destruct (is_prefix src (b ++ [x])) eqn:E; [|reflexivity].
    destruct (is_prefix_snoc _ _ _ E); congruence. }
  assert (Hpre2 : is_prefix (b ++ [x]) src = false).
  { destruct (is_prefix (b ++ [x]) src) eqn:E; [|reflexivity].
    destruct (lookup_prefix n _ _ E) as [y Hy]; [eauto|]. congruence. }
  destruct src as [|c0 src0] using rev_ind; [discriminate|]. clear IHsrc0.
  destruct (set_at_in_dir src0 c0 None n (lookup_snoc_parent _ _ _ _ Hsrc))
    as [n1 Hn1].
  assert (Hb1 : is_dir n1 b = true)
    by (rewrite (set_at_is_dir _ _ _ _ _ Hn1 Hpre); exact Hb).
  destruct (set_at_in_dir b x (Some s) n1 Hb1) as [n2 Hn2].
  exists n2. unfold os_rename.
  apply lookup_walk in Hsrc as Hw. rewrite Hw. simpl bind.
  rewrite bool_decide_eq_false_2 by exact Hne.
  rewrite Hpre1, parent_snoc.
  apply is_dir_lookup in Hb as [es Hes].
  apply lookup_walk in Hes as Hwb. rewrite Hwb. simpl bind.
  rewrite Hdst. simpl bind. rewrite Hn1, Hn2.
  split; [reflexivity|]. split; [exact (set_at_lookup_same _ _ _ _ Hn2)|].
  split.
  - rewrite (set_at_lookup_other _ _ _ _ _ Hn2 Hpre2 Hpre1).
    exact (set_at_lookup_same _ _ _ _ Hn1).
  - intros q H1 H2 H3 H4.
    rewrite (set_at_lookup_other _ _ _ _ _ Hn2 H3 H4).
    exact (set_at_lookup_other _ _ _ _ _ Hn1 H1 H2).
Qed.

Lemma mkdir_parents_eq rp exist_ok n :
  mkdir_parents rp exist_ok n
  = match os_mkdir (rev rp) n with
    | inr n' => ret n'
    | inl FileNotFoundError =>
        match rp with
        | [] => raise FileNotFoundError
        | _ :: rp' =>
            do n1 <- mkdir_parents rp' true n in
            mkdir_leaf (rev rp) exist_ok n1
        end
    | inl e =>
        if negb exist_ok || negb (is_dir n (rev rp)) then raise e else ret n
    end.
Proof. destruct rp; reflexivity. Qed.

(** [Path.mkdir(parents=True, exist_ok=True)] on an existing directory. *)
Lemma mkdir_parents_existing rp n :
  is_dir n (rev rp) = true -> mkdir_parents rp true n = inr n.
Proof.
  intros H. rewrite mkdir_parents_eq.
  assert (Hmk : os_mkdir (rev rp) n = inl FileExistsError).
  { unfold os_mkdir. apply is_dir_lookup in H as [es H].
    apply lookup_walk in H. rewrite H. reflexivity. }
  rewrite Hmk, H. reflexivity.
Qed.

End FsLemmas.

(** ** The backup directory *)

(** C9.  When the directory named after the current second exists under
    the backup root, [timestamped_backup_dir] does not raise, returns that
    directory and leaves the file system as it is: no other directory is
    made. *)
Theorem timestamped_backup_dir_existing (h : Host) (root : Path) (w : World) :
  let backup_dir := root // strftime_stamp (clock h (clock_reads w)) in
  Fs.is_dir (fs w) (parts backup_dir) = true ->
  timestamped_backup_dir h root w = (inr backup_dir, tick w).
Proof.
  intros backup_dir H. unfold timestamped_backup_dir, mbind, now, fs_call, mret.
  simpl fs. fold backup_dir.
  rewrite mkdir_parents_existing by (rewrite rev_involutive; exact H).
  reflexivity.
Qed.

(** Two calls within the second 2024-01-31 23:59:01: the first makes
    [/b/20240131-235901], the second returns the same path and changes
    nothing. *)
Lemma timestamped_backup_dir_existing_witness :
  let root := mkPath "/" ["b"] in
  let d := mkPath "/" ["b"; "20240131-235901"] in
  let w := world_of (dir [("b", dir [])]) in
  let w1 := with_fs (dir [("b", dir [("20240131-235901", dir [])])]) (tick w) in
  timestamped_backup_dir example_host root w = (inr d, w1)
  /\ timestamped_backup_dir example_host root w1 = (inr d, tick w1).
Proof.
  split; [vm_compute; reflexivity|].
  apply (timestamped_backup_dir_existing example_host (mkPath "/" ["b"])).
  vm_compute. reflexivity.
Defined.

(** ** The process terminator *)

Lemma printed_nil w : printed [] w = w.
Proof. destruct w. unfold printed. simpl. rewrite app_nil_r. reflexivity. Qed.

Lemma kill_processes_dry h procs w :
  kill_processes h procs true w = (inr tt, printed (map would_terminate procs) w).
Proof.
  revert w. induction procs as [|proc procs IH]; intros w.
  - simpl. rewrite printed_nil. reflexivity.
  - simpl. unfold mbind, kill_one, print. rewrite IH.
    unfold printed. simpl. rewrite <- app_assoc. reflexivity.
Qed.




(** ** The run *)










(** C1 fails on the code.  A dry run on a machine without any file makes
    the backup root and the timestamped directory under it:
    [ensure_backup_root] and [timestamped_backup_dir] do not look at the
    flag. *)
Theorem perform_reset_dry_run_makes_directories :
  let w := world_of (dir []) in
  let after := perform_reset example_host true (Some (mkPath "/" ["b"])) true w in
  fst after = inr tt
  /\ fs (snd after) = dir [("b", dir [("20240131-235901", dir [])])]
  /\ fs (snd after) <> fs w.
Proof.
  intros w after. split; [vm_compute; reflexivity|].
  assert (H : fs (snd after) = dir [("b", dir [("20240131-235901", dir [])])])
    by (vm_compute; reflexivity).
  split; [exact H|].
  rewrite H. intros Heq.
  apply (f_equal (fun n => Fs.exists_ n ["b"])) in Heq.
  vm_compute in Heq. discriminate Heq.
Qed.

(** ** Paths and their strings *)

Lemma str_app_cons x (a b : string) :
  (String x a ++ b)%string = String x (a ++ b).
Proof. reflexivity. Qed.

Lemma str_app_nil_l (b : string) : (EmptyString ++ b)%string = b.
Proof. reflexivity. Qed.

Lemma str_app_assoc (a b c : string) : ((a ++ b) ++ c = a ++ (b ++ c))%string.
Proof.
  induction a as [|x a IH]; [reflexivity|].
  rewrite !str_app_cons, IH. reflexivity.
Qed.

Lemma str_app_length (a b : string) :
  String.length (a ++ b) = (String.length a + String.length b)%nat.
Proof.
  induction a as [|x a IH]; [reflexivity|].
  rewrite str_app_cons. simpl. rewrite IH. reflexivity.
Qed.

Lemma no_slash_app a b : no_slash (a ++ b) = no_slash a && no_slash b.
Proof.
  induction a as [|x a IH]; [reflexivity|].
  rewrite str_app_cons. simpl. rewrite IH, andb_assoc. reflexivity.
Qed.

Lemma split_slash_nonempty s : Pth.split_slash s <> [].
Proof.
  destruct s as [|c s]; simpl; [discriminate|].
  destruct (Ascii.eqb c Pth.slash); [discriminate|].
  destruct (Pth.split_slash s); discriminate.
Qed.

Lemma split_slash_plain s : no_slash s = true -> Pth.split_slash s = [s].
Proof.
  induction s as [|c s IH]; simpl; [reflexivity|].
  intros H. apply andb_prop in H as [Hc Hs]. apply negb_true_iff in Hc.
  rewrite Hc, (IH Hs). reflexivity.
Qed.

Lemma split_slash_app a b :
  Pth.split_slash (a ++ String Pth.slash b)
  = (Pth.split_slash a ++ Pth.split_slash b)%list.
Proof.
  induction a as [|c a IH]; [rewrite str_app_nil_l|rewrite str_app_cons]; simpl.
  - reflexivity.
  - destruct (Ascii.eqb c Pth.slash); rewrite IH; [reflexivity|].
    pose proof (split_slash_nonempty a) as Hne.
    destruct (Pth.split_slash a); [contradiction|]. reflexivity.
Qed.

Lemma concat_cons sep x (l : list string) :
  l <> [] -> String.concat sep (x :: l) = (x ++ sep ++ String.concat sep l)%string.
Proof. destruct l; [contradiction|reflexivity]. Qed.

Lemma split_slash_concat ps :
  ps <> [] -> Forall (fun c => no_slash c = true) ps ->
  Pth.split_slash (String.concat "/" ps) = ps.
Proof.
  induction ps as [|x ps IH]; [contradiction|]. intros _ Hall.
  inversion Hall as [|? ? Hx Hps]; subst.
  destruct ps as [|y ps].
  - simpl. apply split_slash_plain, Hx.
  - rewrite concat_cons by discriminate.
    change ("/" ++ String.concat "/" (y :: ps))%string
      with (String Pth.slash (String.concat "/" (y :: ps))).
    rewrite split_slash_app, (split_slash_plain x Hx), IH;
      [reflexivity|discriminate|exact Hps].
Qed.

Lemma concat_snoc_suffix init last sfx :
  (String.concat "/" (init ++ [last]) ++ sfx)%string
  = String.concat "/" (init ++ [last ++ sfx]%string).
Proof.
  induction init as [|x init IH]; [reflexivity|].
  simpl app. rewrite !concat_cons by (destruct init; discriminate).
  rewrite !str_app_assoc, IH. reflexivity.
Qed.

Lemma plain_part_head c :
  plain_part c = true ->
  exists a r, c = String a r /\ Ascii.eqb a Pth.slash = false.
Proof.
  unfold plain_part, Pth.keep_part. destruct c as [|a r]; [discriminate|].
  simpl. intros H. apply andb_prop in H as [_ H].
  apply andb_prop in H as [H _]. apply negb_true_iff in H. eauto.
Qed.

Lemma plain_part_no_slash c : plain_part c = true -> no_slash c = true.
Proof. unfold plain_part. intros H. apply andb_prop in H as [_ H]. exact H. Qed.

Lemma plain_part_keep c : plain_part c = true -> Pth.keep_part c = true.
Proof. unfold plain_part. intros H. apply andb_prop in H as [H _]. exact H. Qed.

Lemma filter_keep_plain ps :
  Forall (fun c => plain_part c = true) ps -> List.filter Pth.keep_part ps = ps.
Proof.
  induction 1 as [|c ps Hc _ IH]; simpl; [reflexivity|].
  rewrite (plain_part_keep c Hc), IH. reflexivity.
Qed.

Lemma prefix_cons a s b t :
  String.prefix (String a s) (String b t)
  = if ascii_dec a b then String.prefix s t else false.
Proof. reflexivity. Qed.

Lemma prefix_slash_head a r :
  Ascii.eqb a Pth.slash = false -> String.prefix "/" (String a r) = false.
Proof.
  intros H. rewrite prefix_cons.
  destruct (ascii_dec "/" a) as [E|_]; [|reflexivity].
  subst a. vm_compute in H. discriminate H.
Qed.

Lemma parse_root_relative a s :
  Ascii.eqb a Pth.slash = false -> Pth.parse_root (String a s) = EmptyString.
Proof.
  intros H. unfold Pth.parse_root. rewrite (prefix_slash_head _ _ H). reflexivity.
Qed.

Lemma parse_root_one a s :
  Ascii.eqb a Pth.slash = false ->
  Pth.parse_root (String "/" (String a s)) = "/".
Proof.
  intros H. unfold Pth.parse_root.
  change (String.prefix "//" (String "/" (String a s)))
    with (String.prefix "/" (String a s)).
  rewrite (prefix_slash_head _ _ H). reflexivity.
Qed.

Lemma parse_root_two a s :
  Ascii.eqb a Pth.slash = false ->
  Pth.parse_root (String "/" (String "/" (String a s))) = "//".
Proof.
  intros H. unfold Pth.parse_root.
  change (String.prefix "///" (String "/" (String "/" (String a s))))
    with (String.prefix "/" (String a s)).
  rewrite (prefix_slash_head _ _ H). reflexivity.
Qed.

(** A well-formed path with a last component is read back from its
    string. *)
Lemma of_str_to_str p :
  wf_path p -> parts p <> [] -> Pth.of_str (Pth.to_str p) = p.
Proof.
  destruct p as [r ps]. unfold wf_path. simpl root. simpl parts.
  intros [Hr Hall] Hne.
  assert (Hstr : Pth.to_str (mkPath r ps) = (r ++ String.concat "/" ps)%string)
    by (destruct ps; [contradiction|reflexivity]).
  rewrite Hstr. unfold Pth.of_str.
  assert (Hsplit : Pth.split_slash (String.concat "/" ps) = ps).
  { apply split_slash_concat; [exact Hne|].
    eapply Forall_impl; [exact Hall|]. intros x. apply plain_part_no_slash. }
  assert (Hhead : exists a s, String.concat "/" ps = String a s
                              /\ Ascii.eqb a Pth.slash = false).
  { destruct ps as [|c ps']; [contradiction|].
    inversion Hall as [|? ? Hc _]; subst.
    destruct (plain_part_head c Hc) as (a & s & -> & Ha).
    destruct ps'; [exists a, s; split; [reflexivity|exact Ha]|].
    rewrite concat_cons by discriminate. rewrite str_app_cons. eauto. }
  destruct Hhead as (a & s & Hcat & Ha).
  assert (Hfil := filter_keep_plain ps Hall).
  destruct Hr as [-> | [-> | ->]].
  - rewrite str_app_nil_l, Hsplit, Hfil, Hcat, (parse_root_relative _ _ Ha).
    reflexivity.
  - rewrite str_app_cons, str_app_nil_l.
    change (Pth.split_slash (String "/" (String.concat "/" ps)))
      with (EmptyString :: Pth.split_slash (String.concat "/" ps)).
    rewrite Hsplit. change (List.filter Pth.keep_part (EmptyString :: ps))
      with (List.filter Pth.keep_part ps).
    rewrite Hfil, Hcat, (parse_root_one _ _ Ha). reflexivity.
  - rewrite !str_app_cons, str_app_nil_l.
    change (Pth.split_slash (String "/" (String "/" (String.concat "/" ps))))
      with (EmptyString :: EmptyString
              :: Pth.split_slash (String.concat "/" ps)).
    rewrite Hsplit.
    change (List.filter Pth.keep_part (EmptyString :: EmptyString :: ps))
      with (List.filter Pth.keep_part ps).
    rewrite Hfil, Hcat, (parse_root_two _ _ Ha). reflexivity.
Qed.

Lemma to_str_suffix b x sfx :
  (Pth.to_str (sub b [x]) ++ sfx)%string = Pth.to_str (sub b [x ++ sfx]%string).
Proof.
  unfold Pth.to_str, sub, Str.join. simpl.
  destruct (parts b ++ [x])%list eqn:E1; [destruct (parts b); discriminate|].
  destruct (parts b ++ [(x ++ sfx)%string])%list eqn:E2;
    [destruct (parts b); discriminate|].
  rewrite <- E1, <- E2, str_app_assoc, concat_snoc_suffix. reflexivity.
Qed.

Lemma plain_part_suffix x sfx :
  plain_part x = true -> no_slash sfx = true -> plain_part (x ++ sfx) = true.
Proof.
  intros Hx Hs. unfold plain_part.
  rewrite no_slash_app, (plain_part_no_slash x Hx), Hs, andb_true_r.
  apply plain_part_keep in Hx. unfold Pth.keep_part in *.
  destruct x as [|a r]; [discriminate Hx|].
  rewrite str_app_cons. simpl in Hx |- *.
  destruct (Ascii.eqb a "."); [|reflexivity].
  destruct r as [|a' r']; [discriminate Hx|].
  rewrite str_app_cons. reflexivity.
Qed.

Lemma wf_sub b x : wf_path b -> plain_part x = true -> wf_path (sub b [x]).
Proof.
  intros [Hr Hall] Hx. split; [exact Hr|]. unfold sub. simpl.
  apply Forall_app. split; [exact Hall|]. constructor; [exact Hx|constructor].
Qed.

(** The disambiguated destination: the suffix goes to the last component. *)
Lemma of_str_suffix b x sfx :
  wf_path b -> plain_part x = true -> no_slash sfx = true ->
  Pth.of_str (Pth.to_str (sub b [x]) ++ sfx) = sub b [x ++ sfx]%string.
Proof.
  intros Hb Hx Hs. rewrite to_str_suffix. apply of_str_to_str.
  - apply wf_sub; [exact Hb|]. apply plain_part_suffix; assumption.
  - unfold sub. simpl. destruct (parts b); discriminate.
Qed.

Lemma of_str_plain x :
  plain_part x = true -> Pth.of_str x = mkPath EmptyString [x].
Proof.
  intros Hx. apply (of_str_to_str (mkPath EmptyString [x])).
  - split; [left; reflexivity|]. repeat constructor. exact Hx.
  - discriminate.
Qed.

Lemma digit_char_no_slash k : Ascii.eqb (digit_char k) Pth.slash = false.
Proof.
  unfold digit_char.
  pose proof (Nat.mod_upper_bound k 10 ltac:(discriminate)) as H.
  destruct (k mod 10)%nat as [|[|[|[|[|[|[|[|[|[|n]]]]]]]]]];
    try (exfalso; lia); reflexivity.
Qed.

Lemma zero_padded_S w n :
  zero_padded (S w) n
  = (zero_padded w (n / 10) ++ String (digit_char n) EmptyString)%string.
Proof. reflexivity. Qed.

Lemma no_slash_cons c s :
  no_slash (String c s) = negb (Ascii.eqb c Pth.slash) && no_slash s.
Proof. reflexivity. Qed.

Lemma zero_padded_no_slash w n : no_slash (zero_padded w n) = true.
Proof.
  revert n. induction w as [|w IH]; intros n; [reflexivity|].
  rewrite zero_padded_S, no_slash_app, IH, no_slash_cons, digit_char_no_slash.
  reflexivity.
Qed.

Lemma zero_padded_length w n : String.length (zero_padded w n) = w.
Proof.
  revert n. induction w as [|w IH]; intros n; [reflexivity|].
  rewrite zero_padded_S, str_app_length, IH.
  change (String.length (String (digit_char n) EmptyString)) with 1%nat. lia.
Qed.

Lemma strftime_HMS_no_slash d : no_slash ("-" ++ strftime_HMS d) = true.
Proof.
  unfold strftime_HMS.
  change ("-" ++ ?s)%string with (String "-" s).
  rewrite no_slash_cons, !no_slash_app, !zero_padded_no_slash. reflexivity.
Qed.

(** ** The backup transaction *)

Lemma shutil_move_free n src b x s :
  Fs.lookup n src = Some s ->
  Fs.lookup n (b ++ [x]) = None ->
  Fs.is_dir n b = true ->
  Fs.is_prefix src b = false ->
  exists n', Fs.shutil_move src (b ++ [x]) n = inr n'
    /\ (forall rel, Fs.lookup n' ((b ++ [x]) ++ rel) = Fs.lookup n (src ++ rel))
    /\ Fs.lookup n' src = None.
Proof.
  intros Hsrc Hdst Hb Hpre.
  destruct (os_rename_free n src b x s Hsrc Hdst Hb Hpre)
    as (n' & Hren & Hnew & Hold & _).
  exists n'. split; [|split; [|exact Hold]].
  - unfold Fs.shutil_move.
    assert (Hnd : Fs.is_dir n (b ++ [x]) = false)
      by (unfold Fs.is_dir; rewrite Hdst; reflexivity).
    rewrite Hnd. simpl. rewrite Hren. reflexivity.
  - intros rel.
    rewrite (lookup_app n' (b ++ [x]) rel), (lookup_app n src rel), Hnew, Hsrc.
    reflexivity.
Qed.

Lemma backup_and_remove_missing h target backup_root dry w :
  Fs.exists_ (fs w) (parts target) = false ->
  backup_and_remove h target backup_root dry w = (inr tt, w).
Proof.
  intros H. unfold backup_and_remove, mbind, fs_read. rewrite H. reflexivity.
Qed.

Lemma exists_false_lookup n p : Fs.exists_ n p = false -> Fs.lookup n p = None.
Proof. unfold Fs.exists_. destruct (Fs.lookup n p); [discriminate|reflexivity]. Qed.

Lemma exists_true_lookup n p : Fs.exists_ n p = true -> exists s, Fs.lookup n p = Some s.
Proof. unfold Fs.exists_. destruct (Fs.lookup n p); [eauto|discriminate]. Qed.

Lemma backup_and_remove_free h target backup_root w :
  Fs.exists_ (fs w) (parts target) = true ->
  plain_part (Pth.name target) = true ->
  Fs.is_dir (fs w) (parts backup_root) = true ->
  Fs.is_prefix (parts target) (parts backup_root) = false ->
  Fs.exists_ (fs w) (parts (sub backup_root [Pth.name target])) = false ->
  moved_to h target backup_root (sub backup_root [Pth.name target]) w.
Proof.
  intros Hex Hplain Hdir Hpre Hfree.
  destruct (exists_true_lookup _ _ Hex) as [s Hs].
  destruct (shutil_move_free (fs w) (parts target) (parts backup_root)
              (Pth.name target) s Hs (exists_false_lookup _ _ Hfree) Hdir Hpre)
    as (n' & Hmove & Hnew & Hold).
  exists (with_fs n' (printed ["Moving " ++ Pth.to_str target ++ " to backup "
                               ++ Pth.to_str (sub backup_root [Pth.name target])] w)).
  split; [|split; [reflexivity|split]].
  - unfold backup_and_remove, mbind, fs_read, mret. rewrite Hex.
    rewrite (joinpath_plain _ _ (of_str_plain _ Hplain)).
    change (negb true) with false. cbv beta iota. rewrite Hfree. cbv beta iota.
    unfold print, fs_call. cbv beta iota. simpl fs.
    change (parts (sub backup_root [Pth.name target]))
      with (parts backup_root ++ [Pth.name target])%list.
    rewrite Hmove. reflexivity.
  - exact Hnew.
  - simpl. unfold Fs.exists_. rewrite Hold. reflexivity.
Qed.

Lemma backup_and_remove_taken h target backup_root w :
  let hms := strftime_HMS (clock h (clock_reads w)) in
  let renamed := sub backup_root [Pth.name target ++ "-" ++ hms]%string in
  Fs.exists_ (fs w) (parts target) = true ->
  plain_part (Pth.name target) = true ->
  wf_path backup_root ->
  Fs.is_prefix (parts target) (parts backup_root) = false ->
  Fs.exists_ (fs w) (parts (sub backup_root [Pth.name target])) = true ->
  Fs.exists_ (fs w) (parts renamed) = false ->
  moved_to h target backup_root renamed w.
Proof.
  intros hms renamed Hex Hplain Hwf Hpre Htaken Hfree.
  destruct (exists_true_lookup _ _ Hex) as [s Hs].
  destruct (exists_true_lookup _ _ Htaken) as [t Ht].
  assert (Hdir : Fs.is_dir (fs w) (parts backup_root) = true)
    by exact (lookup_snoc_parent _ _ _ _ Ht).
  destruct (shutil_move_free (fs w) (parts target) (parts backup_root)
              (Pth.name target ++ "-" ++ hms)%string s Hs
              (exists_false_lookup _ _ Hfree) Hdir Hpre)
    as (n' & Hmove & Hnew & Hold).
  exists (with_fs n' (printed ["Moving " ++ Pth.to_str target ++ " to backup "
                               ++ Pth.to_str renamed] (tick w))).
  split; [|split; [reflexivity|split]].
  - unfold backup_and_remove, mbind, fs_read, mret, now. rewrite Hex.
    rewrite (joinpath_plain _ _ (of_str_plain _ Hplain)).
    change (negb true) with false. cbv beta iota. rewrite Htaken.
    unfold now. cbv beta iota. fold hms.
    rewrite (of_str_suffix backup_root (Pth.name target) ("-" ++ hms) Hwf Hplain
               (strftime_HMS_no_slash _)).
    fold renamed. unfold print, fs_call. cbv beta iota. simpl fs.
    change (parts renamed)
      with (parts backup_root ++ [Pth.name target ++ "-" ++ hms]%string)%list.
    rewrite Hmove. reflexivity.
  - exact Hnew.
  - simpl. unfold Fs.exists_. rewrite Hold. reflexivity.
Qed.

Lemma strftime_HMS_length d : String.length (strftime_HMS d) = 6%nat.
Proof.
  unfold strftime_HMS. rewrite !str_app_length, !zero_padded_length. reflexivity.
Qed.

(** When the destination is taken, the move goes to the name with the
    time of day, whatever is there. *)
Lemma backup_and_remove_taken_eq h target backup_root w :
  let hms := strftime_HMS (clock h (clock_reads w)) in
  let renamed := sub backup_root [Pth.name target ++ "-" ++ hms]%string in
  Fs.exists_ (fs w) (parts target) = true ->
  plain_part (Pth.name target) = true ->
  wf_path backup_root ->
  Fs.exists_ (fs w) (parts (sub backup_root [Pth.name target])) = true ->
  backup_and_remove h target backup_root false w
  = mbind (print ("Moving " ++ Pth.to_str target ++ " to backup "
                  ++ Pth.to_str renamed))
          (fun _ => fs_call (Fs.shutil_move (parts target) (parts renamed)))
          (tick w).
Proof.
  intros hms renamed Hex Hplain Hwf Htaken.
  unfold backup_and_remove, mbind, fs_read, mret. rewrite Hex.
  rewrite (joinpath_plain _ _ (of_str_plain _ Hplain)).
  change (negb true) with false. cbv beta iota. rewrite Htaken.
  unfold now. cbv beta iota. fold hms.
  rewrite (of_str_suffix backup_root (Pth.name target) ("-" ++ hms) Hwf Hplain
             (strftime_HMS_no_slash _)).
  reflexivity.
Qed.

(** C3 (as amended).  A live call for a target that does not exist
    changes nothing.  For an existing target with an ordinary last
    component and a backup directory that exists and is neither the
    target nor below it: when [backup_root/name] is free, the target is
    moved there, what was at and below the target is at and below the
    destination, and the target is gone; when that name is taken, the
    move goes to the name followed by a hyphen and the six digits of the
    hour, minute and second, and succeeds in the same way when this
    second name is free. *)
Theorem backup_and_remove_live (h : Host) (target backup_root : Path) (w : World) :
  let destination := sub backup_root [Pth.name target] in
  let hms := strftime_HMS (clock h (clock_reads w)) in
  let renamed := sub backup_root [Pth.name target ++ "-" ++ hms]%string in
  (Fs.exists_ (fs w) (parts target) = false ->
   backup_and_remove h target backup_root false w = (inr tt, w))
  /\ (Fs.exists_ (fs w) (parts target) = true ->
      plain_part (Pth.name target) = true ->
      wf_path backup_root ->
      Fs.is_dir (fs w) (parts backup_root) = true ->
      Fs.is_prefix (parts target) (parts backup_root) = false ->
      (Fs.exists_ (fs w) (parts destination) = false ->
       moved_to h target backup_root destination w)
      /\ (Fs.exists_ (fs w) (parts destination) = true ->
          String.length hms = 6%nat
          /\ backup_and_remove h target backup_root false w
             = mbind (print ("Moving " ++ Pth.to_str target ++ " to backup "
                             ++ Pth.to_str renamed))
                     (fun _ => fs_call (Fs.shutil_move (parts target)
                                                       (parts renamed)))
                     (tick w)
          /\ (Fs.exists_ (fs w) (parts renamed) = false ->
              moved_to h target backup_root renamed w))).
Proof.
  intros destination hms renamed.
  split; [apply backup_and_remove_missing|].
  intros Hex Hplain Hwf Hdir Hpre. split.
  - intros Hfree. apply backup_and_remove_free; assumption.
  - intros Htaken. split; [apply strftime_HMS_length|]. split.
    + apply backup_and_remove_taken_eq; assumption.
    + intros Hfree. apply backup_and_remove_taken; assumption.
Qed.

(** The scenario of the test-suite, and the same with [/tmp/backup/Zoom]
    taken at 23:59:01. *)
Lemma backup_and_remove_live_witness :
  let target := mkPath "/" ["tmp"; "Zoom"] in
  let backup := mkPath "/" ["tmp"; "backup"] in
  let taken_fs :=
    dir [("tmp", dir [("Zoom", dir [("data", Fs.File "sample")]);
                      ("backup", dir [("Zoom", dir [])])])] in
  (exists w',
      backup_and_remove example_host target backup false (world_of tmp_fs)
      = (inr tt, w')
      /\ Fs.lookup (fs w') ["tmp"; "backup"; "Zoom"; "data"]
         = Some (Fs.File "sample")
      /\ Fs.exists_ (fs w') ["tmp"; "Zoom"] = false)
  /\ (exists w',
         backup_and_remove example_host target backup false (world_of taken_fs)
         = (inr tt, w')
         /\ Fs.lookup (fs w') ["tmp"; "backup"; "Zoom-235901"; "data"]
            = Some (Fs.File "sample")
         /\ Fs.exists_ (fs w') ["tmp"; "Zoom"] = false).
Proof.
  intros target backup taken_fs.
  assert (Hwf : wf_path backup).
  { split; [right; left; reflexivity|]. repeat constructor. }
  split.
  - destruct (proj1 (proj2 (backup_and_remove_live example_host target backup
                              (world_of tmp_fs))
                       eq_refl eq_refl Hwf eq_refl eq_refl) eq_refl)
      as (w' & Hrun & _ & Hnew & Hold).
    exists w'. split; [exact Hrun|]. split; [|exact Hold].
    exact (eq_trans (Hnew ["data"]) eq_refl).
  - destruct (proj2 (proj2 (proj2 (proj2 (backup_and_remove_live example_host
                        target backup (world_of taken_fs))
                       eq_refl eq_refl Hwf eq_refl eq_refl) eq_refl)) eq_refl)
      as (w' & Hrun & _ & Hnew & Hold).
    exists w'. split; [exact Hrun|]. split; [|exact Hold].
    exact (eq_trans (Hnew ["data"]) eq_refl).
Defined.

(** C3 (as stated) fails: the existing directory [/tmp] cannot be moved
    into the backup directory [/tmp/backup] below it, although
    [/tmp/backup/tmp] is free.  The call raises and [/tmp] stays. *)
Lemma backup_and_remove_into_itself :
  let target := mkPath "/" ["tmp"] in
  let backup := mkPath "/" ["tmp"; "backup"] in
  let w := world_of tmp_fs in
  Fs.exists_ (fs w) (parts target) = true
  /\ Fs.exists_ (fs w) (parts (backup // Pth.name target)) = false
  /\ backup_and_remove example_host target backup false w
     = (inl (ShutilError "Cannot move a directory into itself"),
        printed ["Moving /tmp to backup /tmp/backup/tmp"] w).
Proof. repeat split; vm_compute; reflexivity. Qed.

(** ** Supplements *)

(** *** A field beyond the limit of the reader *)

Lemma feed_copies_in_field k r :
  Csv.state r = Csv.IN_FIELD ->
  (Csv.field_len r <= Csv.field_limit)%N ->
  (Csv.field_limit < Csv.field_len r + N.of_nat k)%N ->
  Csv.feed (copies k "z") r = inl field_limit_error.
Proof.
  revert r. induction k as [|k IH]; intros r Hst Hle Hlim; [simpl in Hlim; lia|].
  change (Csv.feed (copies (S k) "z") r)
    with (bind (Csv.parse_process_char (Some "z"%char) r)
               (Csv.feed (copies k "z"))).
  unfold Csv.parse_process_char. rewrite Hst.
  change (Csv.is_newline "z") with false.
  change (Ascii.eqb "z" Csv.delimiter) with false. cbv iota.
  unfold Csv.parse_add_char.
  destruct (N.leb_spec Csv.field_limit (Csv.field_len r)) as [H|H];
    [reflexivity|].
  unfold bind, ret. apply IH; simpl; [exact Hst|lia|lia].
Qed.

Lemma splitlines_copies k :
  Str.splitlines (copies (S k) "z") = [copies (S k) "z"].
Proof.
  induction k as [|k IH]; [reflexivity|].
  change (Str.splitlines (copies (S (S k)) "z"))
    with (match Str.splitlines (copies (S k) "z") with
          | [] => [String "z" EmptyString]
          | l :: ls => String "z" l :: ls
          end).
  rewrite IH. reflexivity.
Qed.

Lemma reader_long_field k :
  (Csv.field_limit < N.of_nat (S k))%N ->
  Csv.reader [copies (S k) "z"] = Csv.mkIteration [] (Some field_limit_error).
Proof.
  intros Hlim. unfold Csv.reader.
  change (Csv.reader_rows [copies (S k) "z"]
            (Csv.mkReader [] Csv.START_RECORD EmptyString 0))
    with (match (do r1 <- Csv.feed (copies k "z")
                              (Csv.mkReader [] Csv.IN_FIELD "z" 1) in
                 Csv.parse_process_char None r1) with
          | inl e => Csv.mkIteration [] (Some e)
          | inr r2 =>
              if Csv.is_state (Csv.state r2) Csv.START_RECORD
              then Csv.yield (Csv.fields r2)
                     (Csv.reader_rows [] (Csv.parse_reset r2))
              else Csv.reader_rows [] r2
          end).
  rewrite feed_copies_in_field; [reflexivity|reflexivity| |].
  - unfold Csv.field_limit. simpl Csv.field_len. lia.
  - simpl Csv.field_len. lia.
Qed.

(** A line that is one field of 131073 characters makes the reader, and
    with it [parse_tasklist_output], raise. *)
Lemma parse_tasklist_output_long_field :
  parse_tasklist_output (copies (N.to_nat 131073) "z") = inl field_limit_error.
Proof.
  replace (N.to_nat 131073) with (S (N.to_nat 131072)) by lia.
  unfold parse_tasklist_output.
  rewrite splitlines_copies, parse_tasklist_loop_omap, reader_long_field.
  - reflexivity.
  - unfold Csv.field_limit. lia.
Qed.

(** *** What a dry run leaves alone *)

(** The two loops honour the flag: in a dry run the backup of a path and
    the termination of the processes change neither the file system nor
    the signals. *)
Lemma backup_and_remove_dry h target backup_root w :
  let w' := snd (backup_and_remove h target backup_root true w) in
  fs w' = fs w /\ signals w' = signals w.
Proof.
  unfold backup_and_remove, mbind, fs_read, mret, now, print.
  destruct (Fs.exists_ (fs w) (parts target)); simpl; [|split; reflexivity].
  destruct (Fs.exists_ (fs w) _); simpl; split; reflexivity.
Qed.

Lemma kill_processes_dry_frame h procs w :
  let w' := snd (kill_processes h procs true w) in
  fs w' = fs w /\ signals w' = signals w.
Proof. rewrite kill_processes_dry. split; reflexivity. Qed.

(** *** The tests of the repository, on the embedding *)

Lemma test_parse_ps_output_finds_zoom :
  parse_ps_output sample_ps
  = inr [mkProcessInfo 1234 "Zoom" (Some "/Applications/zoom.us/Zoom.exe")].
Proof. vm_compute. reflexivity. Qed.

Lemma test_parse_tasklist_output_finds_zoom :
  parse_tasklist_output sample_tasklist
  = inr [mkProcessInfo 1234 "Zoom.exe" None].
Proof. vm_compute. reflexivity. Qed.

Lemma test_zoom_paths_macos :
  let home := mkPath "/" ["Users"; "tester"] in
  exists paths,
    zoom_paths example_host "macos" None (Some home) = inr paths
    /\ home // "Library" // "Application Support" // "zoom.us" ∈ paths
    /\ home // "Library" // "Preferences" // "us.zoom.xos.plist" ∈ paths
    /\ home // "Library" // "Cookies" // "us.zoom.xos.binarycookies" ∈ paths.
Proof.
  intros home. eexists. split; [apply zoom_paths_macos|].
  unfold macos_table. plain_joins. repeat split; repeat constructor.
Qed.

Lemma test_zoom_paths_linux :
  let home := mkPath "/" ["home"; "tester"] in
  exists paths,
    zoom_paths example_host "linux" None (Some home) = inr paths
    /\ home // ".config" // "zoom" ∈ paths
    /\ home // ".var" // "app" // "us.zoom.Zoom" ∈ paths.
Proof.
  intros home. eexists. split; [apply zoom_paths_linux|].
  unfold linux_table. plain_joins. repeat split; repeat constructor.
Qed.

Lemma test_backup_directory_created :
  let w := world_of (dir [("tmp", dir [])]) in
  let root := mkPath "/" ["tmp"; "backups"] in
  let backup_dir := mkPath "/" ["tmp"; "backups"; "20240131-235901"] in
  let w1 := with_fs (dir [("tmp", dir [("backups", dir [])])]) w in
  let w2 :=
    with_fs (dir [("tmp", dir [("backups", dir [("20240131-235901", dir [])])])])
            (tick w) in
  ensure_backup_root example_host (Some root) w = (inr root, w1)
  /\ Fs.exists_ (fs w1) (parts root) = true
  /\ timestamped_backup_dir example_host root w1 = (inr backup_dir, w2)
  /\ Fs.exists_ (fs w2) (parts backup_dir) = true.
Proof. repeat split; vm_compute; reflexivity. Qed.

(** * Further properties of the program *)

(** ** Computations that keep a relation *)

Section Keeps.

Variable R : World -> World -> Prop.
Hypothesis R_refl : forall w, R w w.
Hypothesis R_trans : forall w1 w2 w3, R w1 w2 -> R w2 w3 -> R w1 w3.
Hypothesis R_print : forall line w, R w (snd (print line w)).
Hypothesis R_now : forall h w, R w (snd (now h w)).

Lemma keeps_mret {A} (a : A) : keeps R (mret a).
Proof. intros w. apply R_refl. Qed.

Lemma keeps_lift {A} (r : result A) : keeps R (lift r).
Proof. intros w. apply R_refl. Qed.

Lemma keeps_fs_read {A} (f : Fs.node -> A) : keeps R (fs_read f).
Proof. intros w. apply R_refl. Qed.

Lemma keeps_print line : keeps R (print line).
Proof. intros w. apply R_print. Qed.

Lemma keeps_now h : keeps R (now h).
Proof. intros w. apply R_now. Qed.

Lemma keeps_mbind {A B} (m : M A) (k : A -> M B) :
  keeps R m -> (forall a, keeps R (k a)) -> keeps R (mbind m k).
Proof.
  intros Hm Hk w. unfold mbind. specialize (Hm w).
  destruct (m w) as [[e|a] w1]; simpl in *; [exact Hm|].
  exact (R_trans _ _ _ Hm (Hk a w1)).
Qed.

Lemma keeps_backup_and_remove h target backup_root dry :
  (dry = false -> forall src dst, keeps R (fs_call (Fs.shutil_move src dst))) ->
  keeps R (backup_and_remove h target backup_root dry).
Proof.
  intros Hmove. unfold backup_and_remove.
  apply keeps_mbind; [apply keeps_fs_read|]. intros target_exists.
  destruct (negb target_exists); [apply keeps_mret|].
  apply keeps_mbind; [apply keeps_fs_read|]. intros taken.
  apply keeps_mbind.
  - destruct taken; [|apply keeps_mret].
    apply keeps_mbind; [apply keeps_now|]. intros d. apply keeps_mret.
  - intros destination. destruct dry; [apply keeps_print|].
    apply keeps_mbind; [apply keeps_print|]. intros _.
    apply Hmove. reflexivity.
Qed.

Lemma keeps_backup_each h targets backup_dir dry :
  (dry = false -> forall src dst, keeps R (fs_call (Fs.shutil_move src dst))) ->
  keeps R (backup_each h targets backup_dir dry).
Proof.
  intros Hmove. induction targets as [|path targets IH]; simpl.
  - apply keeps_mret.
  - apply keeps_mbind; [apply keeps_backup_and_remove, Hmove|].
    intros _. exact IH.
Qed.

Lemma keeps_mbind_lift {A B} (r : result A) (k : A -> M B) :
  (forall a, r = inr a -> keeps R (k a)) -> keeps R (mbind (lift r) k).
Proof.
  intros Hk w. unfold mbind, lift. destruct r as [e|a]; simpl.
  - apply R_refl.
  - exact (Hk a eq_refl w).
Qed.

Lemma keeps_mbind_ret {A B} (P : A -> Prop) (m : M A) (k : A -> M B) :
  (forall w a, fst (m w) = inr a -> P a) ->
  keeps R m -> (forall a, P a -> keeps R (k a)) -> keeps R (mbind m k).
Proof.
  intros HP Hm Hk w. unfold mbind. specialize (Hm w). specialize (HP w).
  destruct (m w) as [[e|a] w1]; simpl in *; [exact Hm|].
  exact (R_trans _ _ _ Hm (Hk a (HP a eq_refl) w1)).
Qed.

Lemma ensure_backup_root_value h backup_root w a :
  fst (ensure_backup_root h backup_root w) = inr a ->
  a = effective_root h backup_root.
Proof.
  unfold ensure_backup_root, mbind, fs_call, mret.
  destruct (Fs.mkdir_parents _ true (fs w)); simpl; [discriminate|].
  intros [= <-]. destruct backup_root; [reflexivity|].
  apply joinpath_plain. reflexivity.
Qed.

(** A relation that the steps of a run keep is kept by the run; the
    directories made are the backup root and an entry of it. *)
Lemma keeps_perform_reset_at h dry backup_root skip :
  (skip = false ->
   forall system_name procs,
     detect_system h = inr system_name ->
     list_zoom_processes h system_name = inr procs ->
     keeps R (kill_processes h procs dry)) ->
  keeps R (fs_call (Fs.mkdir_parents
                      (rev (parts (effective_root h backup_root))) true)) ->
  (forall d,
     keeps R (fs_call (Fs.mkdir_parents
                         (rev (parts (effective_root h backup_root
                                      // strftime_stamp d))) true))) ->
  (dry = false -> forall src dst, keeps R (fs_call (Fs.shutil_move src dst))) ->
  keeps R (perform_reset h dry backup_root skip).
Proof.
  intros Hkill Hroot Hstamp Hmove. unfold perform_reset.
  apply keeps_mbind_lift. intros system_name Hsys.
  apply keeps_mbind; [apply keeps_print|]. intros _.
  apply keeps_mbind.
  { destruct skip; simpl negb; cbv iota; [apply keeps_print|].
    apply keeps_mbind_lift. intros procs Hprocs.
    destruct procs as [|proc procs]; [apply keeps_print|].
    apply keeps_mbind; [apply keeps_print|]. intros _.
    exact (Hkill eq_refl _ _ Hsys Hprocs). }
  intros _.
  apply (keeps_mbind_ret (fun a => a = effective_root h backup_root)).
  { intros w a. apply ensure_backup_root_value. }
  { unfold ensure_backup_root.
    apply keeps_mbind; [|intros _; apply keeps_mret].
    destruct backup_root as [p|]; [exact Hroot|].
    rewrite (joinpath_plain (path_home h) ".zoom-reset-backups" eq_refl).
    exact Hroot. }
  intros root ->. apply keeps_mbind.
  { unfold timestamped_backup_dir.
    apply keeps_mbind; [apply keeps_now|]. intros d.
    apply keeps_mbind; [apply Hstamp|]. intros _. apply keeps_mret. }
  intros backup_dir. apply keeps_mbind; [apply keeps_lift|]. intros targets.
  apply keeps_mbind; [apply keeps_backup_each, Hmove|]. intros _.
  apply keeps_print.
Qed.

Lemma keeps_perform_reset h dry backup_root skip :
  (skip = false ->
   forall system_name procs,
     detect_system h = inr system_name ->
     list_zoom_processes h system_name = inr procs ->
     keeps R (kill_processes h procs dry)) ->
  (forall rp, keeps R (fs_call (Fs.mkdir_parents rp true))) ->
  (dry = false -> forall src dst, keeps R (fs_call (Fs.shutil_move src dst))) ->
  keeps R (perform_reset h dry backup_root skip).
Proof.
  intros Hkill Hmkdir Hmove.
  apply keeps_perform_reset_at; auto.
Qed.

End Keeps.

(** ** Making directories loses nothing *)

Lemma preserves_refl n : preserves n n.
Proof. split; auto. Qed.

Lemma preserves_trans n1 n2 n3 :
  preserves n1 n2 -> preserves n2 n3 -> preserves n1 n3.
Proof. intros [F1 D1] [F2 D2]. split; auto. Qed.

(** What lies above a path that can be written is a directory. *)
Lemma set_at_ancestor_dir p v n n' q :
  Fs.set_at p v n = Some n' -> Fs.is_prefix q p = true -> q <> p ->
  Fs.is_dir n q = true.
Proof.
  revert n n' q. induction p as [|c p IH]; intros n n' q; [discriminate|].
  intros Hs Hpre Hne.
  destruct q as [|e q].
  - destruct (set_at_dir _ _ _ _ Hs) as (es & es' & -> & _). reflexivity.
  - simpl in Hpre. apply andb_prop in Hpre as [He Hq].
    apply String.eqb_eq in He as ->.
    destruct n as [d|es]; [discriminate|]. simpl in Hs.
    destruct p as [|c' p'].
    + apply is_prefix_nil_r in Hq as ->. contradiction.
    + destruct (es !! c) as [ch|] eqn:Hc; [|discriminate].
      destruct (Fs.set_at (c' :: p') v ch) as [ch'|] eqn:Hs'; [|discriminate].
      unfold Fs.is_dir. rewrite lookup_cons, Hc.
      apply (IH _ _ _ Hs' Hq). congruence.
Qed.

Lemma os_mkdir_inv p n n' :
  Fs.os_mkdir p n = inr n' ->
  Fs.lookup n p = None /\ Fs.set_at p (Some (Fs.Dir ∅)) n = Some n'.
Proof.
  unfold Fs.os_mkdir, Fs.lookup.
  destruct (Fs.walk n p) as [e|x]; [|discriminate].
  destruct e; try discriminate;
    (destruct (Fs.walk n (Fs.parent p)); [discriminate|]); simpl;
    (destruct (Fs.set_at p _ n); [|discriminate]);
    intros [= <-]; split; reflexivity.
Qed.

(** [os.mkdir] adds one empty directory and leaves the rest. *)
Lemma os_mkdir_preserves p n n' :
  Fs.os_mkdir p n = inr n' -> preserves n n' /\ Fs.is_dir n' p = true.
Proof.
  intros H. apply os_mkdir_inv in H as [Hnone Hset].
  assert (Hcase : forall q, is_Some (Fs.lookup n q) ->
            Fs.is_prefix p q = false
            /\ (Fs.is_prefix q p = true -> Fs.is_dir n q = true)).
  { intros q Hq. split.
    - destruct (Fs.is_prefix p q) eqn:E; [|reflexivity].
      destruct (lookup_prefix n p q E Hq) as [x Hx]. congruence.
    - intros Hqp. apply (set_at_ancestor_dir _ _ _ _ _ Hset Hqp).
      intros ->. destruct Hq as [x Hx]. congruence. }
  split; [split|].
  - intros q d Hq. destruct (Hcase q) as [Hpq Hqp]; [eauto|].
    destruct (Fs.is_prefix q p) eqn:E.
    + specialize (Hqp eq_refl). unfold Fs.is_dir in Hqp.
      rewrite Hq in Hqp. discriminate.
    + rewrite (set_at_lookup_other _ _ _ _ _ Hset Hpq E). exact Hq.
  - intros q Hq. rewrite (set_at_is_dir _ _ _ _ _ Hset); [exact Hq|].
    apply is_dir_lookup in Hq as [es Hq].
    destruct (Hcase q) as [Hpq _]; [eauto|exact Hpq].
  - unfold Fs.is_dir. rewrite (set_at_lookup_same _ _ _ _ Hset). reflexivity.
Qed.

Lemma mkdir_leaf_preserves p n n' :
  Fs.mkdir_leaf p true n = inr n' -> preserves n n' /\ Fs.is_dir n' p = true.
Proof.
  unfold Fs.mkdir_leaf.
  destruct (Fs.os_mkdir p n) as [e|n1] eqn:Hmk.
  - destruct (Fs.is_dir n p) eqn:Hd;
      destruct e; simpl; try discriminate;
      intros [= <-]; (split; [apply preserves_refl|exact Hd]).
  - intros [= <-]. apply os_mkdir_preserves, Hmk.
Qed.

(** [Path.mkdir(parents=True, exist_ok=True)], when it returns, has made
    the path a directory and has lost nothing. *)
Lemma mkdir_parents_preserves rp n n' :
  Fs.mkdir_parents rp true n = inr n' ->
  preserves n n' /\ Fs.is_dir n' (rev rp) = true.
Proof.
  revert n n'. induction rp as [|c rp IH]; intros n n';
    rewrite mkdir_parents_eq;
    destruct (Fs.os_mkdir _ n) as [e|n1] eqn:Hmk;
    try (intros [= <-]; apply os_mkdir_preserves, Hmk).
  - destruct (Fs.is_dir n (rev [])) eqn:Hd;
      destruct e; simpl; try discriminate;
      intros [= <-]; (split; [apply preserves_refl|exact Hd]).
  - destruct (Fs.is_dir n (rev (c :: rp))) eqn:Hd;
      destruct e; simpl negb; simpl orb; cbv iota; try discriminate;
      try (intros [= <-]; split; [apply preserves_refl|exact Hd]);
      (destruct (Fs.mkdir_parents rp true n) as [e1|n2] eqn:Hpar;
       [discriminate|]); simpl bind; intros Hleaf;
      destruct (IH _ _ Hpar) as [Hp1 _];
      destruct (mkdir_leaf_preserves _ _ _ Hleaf) as [Hp2 Hd2];
      (split; [exact (preserves_trans _ _ _ Hp1 Hp2)|exact Hd2]).
Qed.

Lemma harmless_refl w : harmless w w.
Proof. split; [reflexivity|apply preserves_refl]. Qed.

Lemma harmless_trans w1 w2 w3 : harmless w1 w2 -> harmless w2 w3 -> harmless w1 w3.
Proof.
  intros [S1 P1] [S2 P2]. split; [congruence|].
  exact (preserves_trans _ _ _ P1 P2).
Qed.

Lemma harmless_print line w : harmless w (snd (print line w)).
Proof. split; [reflexivity|apply preserves_refl]. Qed.

Lemma harmless_now h w : harmless w (snd (now h w)).
Proof. split; [reflexivity|apply preserves_refl]. Qed.

Lemma harmless_mkdir rp : keeps harmless (fs_call (Fs.mkdir_parents rp true)).
Proof.
  intros w. unfold fs_call.
  destruct (Fs.mkdir_parents rp true (fs w)) as [e|n'] eqn:H; simpl.
  - apply harmless_refl.
  - split; [reflexivity|]. apply (mkdir_parents_preserves _ _ _ H).
Qed.

Lemma harmless_kill_dry h procs : keeps harmless (kill_processes h procs true).
Proof.
  intros w. rewrite kill_processes_dry. split; [reflexivity|apply preserves_refl].
Qed.

Lemma same_signals_fs_call f : keeps same_signals (fs_call f).
Proof. intros w. unfold fs_call. destruct (f (fs w)); reflexivity. Qed.

(** ** The time stamp is one component of a path *)

Lemma keep_part_long s : (2 <= String.length s)%nat -> Pth.keep_part s = true.
Proof.
  destruct s as [|a [|b s']]; simpl; try lia. intros _.
  unfold Pth.keep_part. simpl. destruct (Ascii.eqb a "."); reflexivity.
Qed.

Lemma strftime_stamp_length d : String.length (strftime_stamp d) = 15%nat.
Proof.
  unfold strftime_stamp.
  rewrite !str_app_length, !zero_padded_length, strftime_HMS_length.
  reflexivity.
Qed.

Lemma strftime_stamp_plain d : plain_part (strftime_stamp d) = true.
Proof.
  unfold plain_part. rewrite keep_part_long by (rewrite strftime_stamp_length; lia).
  unfold strftime_stamp.
  do 3 rewrite no_slash_app.
  rewrite !zero_padded_no_slash, strftime_HMS_no_slash. reflexivity.
Qed.

(** ** Making directories adds directories only *)

Lemma is_prefix_refl p : Fs.is_prefix p p = true.
Proof.
  induction p as [|a p IH]; [reflexivity|].
  simpl. rewrite String.eqb_refl. exact IH.
Qed.

Lemma is_prefix_app p x : Fs.is_prefix p (p ++ x) = true.
Proof.
  induction p as [|a p IH]; [reflexivity|].
  simpl. rewrite String.eqb_refl. exact IH.
Qed.

Lemma is_prefix_inv p q :
  Fs.is_prefix p q = true -> exists rel, q = (p ++ rel)%list.
Proof.
  revert q. induction p as [|a p IH]; intros q H; [exists q; reflexivity|].
  destruct q as [|b q]; [discriminate|]. simpl in H.
  apply andb_prop in H as [Hab H]. apply String.eqb_eq in Hab as ->.
  destruct (IH q H) as [rel ->]. exists rel. reflexivity.
Qed.

Lemma is_prefix_trans p q r :
  Fs.is_prefix p q = true -> Fs.is_prefix q r = true ->
  Fs.is_prefix p r = true.
Proof.
  intros H1 H2. apply is_prefix_inv in H1 as [a ->].
  apply is_prefix_inv in H2 as [b ->].
  rewrite <- app_assoc. apply is_prefix_app.
Qed.

(** After [os.mkdir(p)] a path leads to what it led to before, or it is
    [p] or above [p] and leads to a directory. *)
Lemma os_mkdir_new p n n' q x :
  Fs.os_mkdir p n = inr n' -> Fs.lookup n' q = Some x ->
  Fs.lookup n q = Some x
  \/ (Fs.is_prefix q p = true /\ Fs.is_dir n' q = true).
Proof.
  intros H Hq. apply os_mkdir_inv in H as [Hnone Hset].
  destruct (Fs.is_prefix p q) eqn:Hpq.
  - right. apply is_prefix_inv in Hpq as [rel ->].
    rewrite lookup_app, (set_at_lookup_same _ _ _ _ Hset) in Hq.
    destruct rel as [|c rel].
    + rewrite app_nil_r. split; [apply is_prefix_refl|].
      unfold Fs.is_dir. rewrite (set_at_lookup_same _ _ _ _ Hset). reflexivity.
    + rewrite lookup_cons, lookup_empty in Hq. discriminate.
  - destruct (Fs.is_prefix q p) eqn:Hqp.
    + right. split; [reflexivity|].
      rewrite (set_at_is_dir _ _ _ _ _ Hset Hpq).
      apply (set_at_ancestor_dir _ _ _ _ _ Hset Hqp).
      intros ->. rewrite is_prefix_refl in Hpq. discriminate.
    + left. rewrite <- (set_at_lookup_other _ _ _ _ _ Hset Hpq Hqp). exact Hq.
Qed.

Lemma mkdir_leaf_new p n n' q x :
  Fs.mkdir_leaf p true n = inr n' -> Fs.lookup n' q = Some x ->
  Fs.lookup n q = Some x
  \/ (Fs.is_prefix q p = true /\ Fs.is_dir n' q = true).
Proof.
  unfold Fs.mkdir_leaf.
  destruct (Fs.os_mkdir p n) as [e|n1] eqn:Hmk.
  - destruct (Fs.is_dir n p) eqn:Hd;
      destruct e; simpl; try discriminate;
      intros [= <-] Hq; left; exact Hq.
  - intros [= <-]. apply os_mkdir_new, Hmk.
Qed.

(** [Path.mkdir(parents=True, exist_ok=True)] on [p], when it returns,
    has added directories at and above [p] and nothing else. *)
Lemma mkdir_parents_new rp n n' q x :
  Fs.mkdir_parents rp true n = inr n' -> Fs.lookup n' q = Some x ->
  Fs.lookup n q = Some x
  \/ (Fs.is_prefix q (rev rp) = true /\ Fs.is_dir n' q = true).
Proof.
  revert n n'. induction rp as [|c rp IH]; intros n n';
    rewrite mkdir_parents_eq;
    destruct (Fs.os_mkdir _ n) as [e|n1] eqn:Hmk;
    try (intros [= <-]; apply os_mkdir_new, Hmk).
  - destruct (Fs.is_dir n (rev [])) eqn:Hd;
      destruct e; simpl; try discriminate;
      intros [= <-] Hq; left; exact Hq.
  - destruct (Fs.is_dir n (rev (c :: rp))) eqn:Hd;
      destruct e; simpl negb; simpl orb; cbv iota; try discriminate;
      try (intros [= <-] Hq; left; exact Hq);
      (destruct (Fs.mkdir_parents rp true n) as [e1|n2] eqn:Hpar;
       [discriminate|]); simpl bind; intros Hleaf Hq;
      (destruct (mkdir_leaf_new _ _ _ _ _ Hleaf Hq) as [Hq2 | Hnew];
       [|right; exact Hnew]);
      (destruct (IH _ _ Hpar Hq2) as [Hq1 | [Hpre Hdir]];
       [left; exact Hq1|right]);
      (split;
       [apply (is_prefix_trans _ _ _ Hpre); simpl rev; apply is_prefix_app
       |apply (mkdir_leaf_preserves _ _ _ Hleaf), Hdir]).
Qed.

Lemma adds_directories_only_same root w w' :
  fs w' = fs w -> signals w' = signals w -> adds_directories_only root w w'.
Proof.
  intros Hfs Hsig. unfold adds_directories_only, harmless, no_new_file, new_near.
  rewrite Hfs, Hsig.
  split; [split; [reflexivity|apply preserves_refl]|]. split; auto.
Qed.

Lemma adds_directories_only_trans root w1 w2 w3 :
  adds_directories_only root w1 w2 -> adds_directories_only root w2 w3 ->
  adds_directories_only root w1 w3.
Proof.
  intros (H1 & F1 & N1) (H2 & F2 & N2).
  split; [exact (harmless_trans _ _ _ H1 H2)|]. split.
  - intros q d Hq. apply F1, F2, Hq.
  - intros q Hq. destruct (N2 q Hq) as [Hq2 | Hnear]; [|right; exact Hnear].
    apply N1, Hq2.
Qed.

Lemma adds_directories_only_mkdir root rp :
  (exists name, Fs.is_prefix (rev rp) (root ++ [name]) = true) ->
  keeps (adds_directories_only root) (fs_call (Fs.mkdir_parents rp true)).
Proof.
  intros [name Hname] w. unfold fs_call.
  destruct (Fs.mkdir_parents rp true (fs w)) as [e|n'] eqn:H; simpl.
  - apply adds_directories_only_same; reflexivity.
  - split; [split; [reflexivity|apply (mkdir_parents_preserves _ _ _ H)]|].
    simpl fs. split.
    + intros q d Hq.
      destruct (mkdir_parents_new _ _ _ _ _ H Hq) as [Hold | [_ Hdir]];
        [exact Hold|].
      unfold Fs.is_dir in Hdir. rewrite Hq in Hdir. discriminate.
    + intros q Hq. apply exists_true_lookup in Hq as [x Hq].
      destruct (mkdir_parents_new _ _ _ _ _ H Hq) as [Hold | [Hpre _]].
      * left. unfold Fs.exists_. rewrite Hold. reflexivity.
      * right. exists name. exact (is_prefix_trans _ _ _ Hpre Hname).
Qed.

(** ** What a run never does *)

(** X1.  A dry run, however it ends, sends no signal, loses nothing and
    adds directories only.  Every file that was there is still there
    with its content and every directory is still a directory; every
    file that is there afterwards was there before with the same
    content; and a path that exists afterwards and did not before is the
    backup root, a directory above it or an entry of it (the timestamped
    directory). *)
Theorem perform_reset_dry_run_harmless (h : Host) (backup_root : option Path)
    (skip_process_kill : bool) (w : World) :
  adds_directories_only (parts (effective_root h backup_root)) w
    (snd (perform_reset h true backup_root skip_process_kill w)).
Proof.
  apply (keeps_perform_reset_at (adds_directories_only _)).
  - intros w0. apply adds_directories_only_same; reflexivity.
  - apply adds_directories_only_trans.
  - intros line w0. apply adds_directories_only_same; reflexivity.
  - intros h0 w0. apply adds_directories_only_same; reflexivity.
  - intros _ system_name procs _ _ w0. rewrite kill_processes_dry.
    apply adds_directories_only_same; reflexivity.
  - apply adds_directories_only_mkdir. exists EmptyString.
    rewrite rev_involutive. apply is_prefix_app.
  - intros d. apply adds_directories_only_mkdir. exists (strftime_stamp d).
    rewrite rev_involutive,
      (joinpath_plain _ _ (of_str_plain _ (strftime_stamp_plain d))).
    apply is_prefix_refl.
  - discriminate.
Qed.

(** X2.  With the kill step skipped no signal is sent, in a dry run or
    not and however the run ends. *)
Theorem perform_reset_skip_kill_no_signal (h : Host) (dry_run : bool)
    (backup_root : option Path) (w : World) :
  signals (snd (perform_reset h dry_run backup_root true w)) = signals w.
Proof.
  apply (keeps_perform_reset same_signals).
  - reflexivity.
  - unfold same_signals. intros w1 w2 w3 H1 H2. congruence.
  - reflexivity.
  - reflexivity.
  - discriminate.
  - intros rp. apply same_signals_fs_call.
  - intros _ src dst. apply same_signals_fs_call.
Qed.

(** ** The backup location *)

(** X3.  When [ensure_backup_root] returns, the path it returns is the
    one given, or [.zoom-reset-backups] under the home when none is
    given; that path is a directory, nothing was lost or printed, and a
    second call returns the same path and changes nothing. *)
Theorem ensure_backup_root_returns (h : Host) (path : option Path)
    (w w' : World) (root : Path) :
  ensure_backup_root h path w = (inr root, w') ->
  root = match path with
         | Some p => p
         | None => sub (path_home h) [".zoom-reset-backups"]
         end
  /\ Fs.is_dir (fs w') (parts root) = true
  /\ harmless w w'
  /\ stdout w' = stdout w
  /\ ensure_backup_root h path w' = (inr root, w').
Proof.
  unfold ensure_backup_root, mbind, fs_call, mret.
  rewrite (joinpath_plain (path_home h) ".zoom-reset-backups" eq_refl).
  set (p := match path with
            | Some p => p
            | None => sub (path_home h) [".zoom-reset-backups"]
            end).
  destruct (Fs.mkdir_parents (rev (parts p)) true (fs w)) as [e|n'] eqn:Hmk;
    [discriminate|].
  intros [= <- <-]. simpl.
  destruct (mkdir_parents_preserves _ _ _ Hmk) as [Hpres Hdir].
  rewrite rev_involutive in Hdir.
  split; [reflexivity|]. split; [exact Hdir|].
  split; [split; [reflexivity|exact Hpres]|]. split; [reflexivity|].
  rewrite mkdir_parents_existing by (rewrite rev_involutive; exact Hdir).
  reflexivity.
Qed.

Lemma ensure_backup_root_returns_witness :
  let w := world_of (dir []) in
  exists w',
    ensure_backup_root example_host None w
    = (inr (mkPath "/" ["home"; "u"; ".zoom-reset-backups"]), w')
    /\ Fs.is_dir (fs w') ["home"; "u"; ".zoom-reset-backups"] = true.
Proof.
  intros w.
  destruct (ensure_backup_root example_host None w) as [r w'] eqn:Hrun.
  assert (Hr : r = inr (mkPath "/" ["home"; "u"; ".zoom-reset-backups"])).
  { apply (f_equal fst) in Hrun. vm_compute in Hrun. symmetry. exact Hrun. }
  subst r. exists w'. split; [reflexivity|].
  exact (proj1 (proj2 (ensure_backup_root_returns example_host None w w' _ Hrun))).
Defined.

(** X4.  When [timestamped_backup_dir] returns, the directory it returns
    is the root followed by one component, the fifteen characters of the
    time stamp; it is a directory, the clock was read once and nothing
    was lost. *)
Theorem timestamped_backup_dir_returns (h : Host) (root : Path)
    (w w' : World) (d : Path) :
  timestamped_backup_dir h root w = (inr d, w') ->
  let stamp := strftime_stamp (clock h (clock_reads w)) in
  d = sub root [stamp]
  /\ String.length stamp = 15%nat
  /\ Fs.is_dir (fs w') (parts d) = true
  /\ harmless w w'
  /\ clock_reads w' = S (clock_reads w).
Proof.
  intros Hrun stamp. unfold timestamped_backup_dir, mbind, now, fs_call, mret in Hrun.
  fold stamp in Hrun.
  rewrite (joinpath_plain root stamp (of_str_plain _ (strftime_stamp_plain _)))
    in Hrun.
  simpl fs in Hrun.
  destruct (Fs.mkdir_parents (rev (parts (sub root [stamp]))) true (fs w))
    as [e|n'] eqn:Hmk; [discriminate|].
  injection Hrun as <- <-.
  destruct (mkdir_parents_preserves _ _ _ Hmk) as [Hpres Hdir].
  rewrite rev_involutive in Hdir.
  split; [reflexivity|]. split; [unfold stamp; apply strftime_stamp_length|].
  split; [exact Hdir|]. split; [split; [reflexivity|exact Hpres]|reflexivity].
Qed.

Lemma timestamped_backup_dir_returns_witness :
  let w := world_of (dir []) in
  exists w',
    timestamped_backup_dir example_host (mkPath "/" ["b"]) w
    = (inr (mkPath "/" ["b"; "20240131-235901"]), w')
    /\ Fs.is_dir (fs w') ["b"; "20240131-235901"] = true.
Proof.
  intros w.
  destruct (timestamped_backup_dir example_host (mkPath "/" ["b"]) w)
    as [r w'] eqn:Hrun.
  assert (Hr : r = inr (mkPath "/" ["b"; "20240131-235901"])).
  { apply (f_equal fst) in Hrun. vm_compute in Hrun. symmetry. exact Hrun. }
  subst r. exists w'. split; [reflexivity|].
  exact (proj1 (proj2 (proj2
           (timestamped_backup_dir_returns example_host _ w w' _ Hrun)))).
Defined.

(** ** The backup transaction in a dry run *)

(** X5.  In a dry run [backup_and_remove] never raises and changes
    neither the file system nor the signals.  It prints nothing for a
    target that does not exist and one line for a target that exists;
    when the name in the backup directory is free the line names that
    destination. *)
Theorem backup_and_remove_dry_run (h : Host) (target backup_root : Path)
    (w : World) :
  let out := backup_and_remove h target backup_root true w in
  fst out = inr tt
  /\ fs (snd out) = fs w
  /\ signals (snd out) = signals w
  /\ (Fs.exists_ (fs w) (parts target) = false -> snd out = w)
  /\ (Fs.exists_ (fs w) (parts target) = true ->
      exists dest,
        stdout (snd out)
        = (stdout w ++ [("Would move " ++ Pth.to_str target ++ " to "
                         ++ Pth.to_str dest)%string])%list
        /\ (Fs.exists_ (fs w) (parts (backup_root // Pth.name target)) = false ->
            dest = backup_root // Pth.name target)).
Proof.
  unfold backup_and_remove, mbind, fs_read, mret, now, print.
  destruct (Fs.exists_ (fs w) (parts target)); simpl.
  - destruct (Fs.exists_ (fs w) (parts (backup_root // Pth.name target))); simpl;
      (repeat split; try discriminate; intros _; eexists;
       (split; [reflexivity|])); [discriminate|reflexivity].
  - repeat split; try discriminate.
Qed.

(** A dry run over the directories of the test-suite: [/tmp/Zoom] is
    there and [/tmp/backup/Zoom] is free. *)
Lemma backup_and_remove_dry_run_witness :
  let target := mkPath "/" ["tmp"; "Zoom"] in
  let backup_root := mkPath "/" ["tmp"; "backup"] in
  let w := world_of tmp_fs in
  let out := backup_and_remove example_host target backup_root true w in
  fst out = inr tt
  /\ fs (snd out) = fs w
  /\ exists dest,
       stdout (snd out)
       = (stdout w ++ [("Would move " ++ Pth.to_str target ++ " to "
                        ++ Pth.to_str dest)%string])%list
       /\ dest = backup_root // Pth.name target.
Proof.
  intros target backup_root w out.
  destruct (backup_and_remove_dry_run example_host target backup_root w)
    as (H1 & H2 & _ & _ & H5).
  assert (Hthere : Fs.exists_ (fs w) (parts target) = true)
    by (vm_compute; reflexivity).
  assert (Hfree : Fs.exists_ (fs w) (parts (backup_root // Pth.name target))
                  = false)
    by (vm_compute; reflexivity).
  split; [exact H1|]. split; [exact H2|].
  destruct (H5 Hthere) as (dest & Hout & Hdest).
  exists dest. split; [exact Hout|exact (Hdest Hfree)].
Defined.

(** ** The signals of the terminator *)

Lemma kill_one_live_cases h proc w :
  (exists line,
      kill_one h false proc w
      = (inr tt, mkWorld (fs w) (stdout w ++ [line]) (stderr w)
                         (signals w ++ [pid proc]) (clock_reads w)))
  \/ (exists e,
         kill_one h false proc w
         = (inl e, mkWorld (fs w) (stdout w) (stderr w)
                           (signals w ++ [pid proc]) (clock_reads w))
         /\ os_kill h (signals w) (pid proc) = Some e
         /\ e <> ProcessLookupError
         /\ forall msg, e <> PermissionError msg).
Proof.
  unfold kill_one, kill, print.
  destruct (os_kill h (signals w) (pid proc)) as [e|]; [destruct e|]; simpl;
    first [ left; eexists; reflexivity
          | right; eexists; split; [reflexivity|];
            split; [reflexivity|]; split; [discriminate|];
            intros ?; discriminate ].
Qed.

Lemma kill_processes_live_prefix (h : Host) (procs : list ProcessInfo)
    (w : World) :
  let out := kill_processes h procs false w in
  fs (snd out) = fs w
  /\ clock_reads (snd out) = clock_reads w
  /\ exists k,
       (k <= length procs)%nat
       /\ signals (snd out) = (signals w ++ map pid (take k procs))%list
       /\ match fst out with
          | inr _ => k = length procs
          | inl e => e <> ProcessLookupError /\ forall msg, e <> PermissionError msg
          end.
Proof.
  revert w. induction procs as [|proc procs IH]; intros w.
  - simpl. split; [reflexivity|]. split; [reflexivity|].
    exists O. rewrite app_nil_r. auto.
  - cbv zeta.
    change (kill_processes h (proc :: procs) false w)
      with (mbind (kill_one h false proc)
                  (fun _ => kill_processes h procs false) w).
    unfold mbind.
    destruct (kill_one_live_cases h proc w) as [[line ->] | (e & -> & _ & He1 & He2)].
    + specialize (IH (mkWorld (fs w) (stdout w ++ [line]) (stderr w)
                              (signals w ++ [pid proc]) (clock_reads w))).
      cbv zeta in IH. destruct IH as (Hfs & Hck & k & Hk & Hsig & Hres).
      split; [exact Hfs|]. split; [exact Hck|].
      exists (S k). split; [simpl; lia|]. split.
      * rewrite Hsig. simpl. rewrite <- app_assoc. reflexivity.
      * cbv beta iota.
        destruct (fst (kill_processes h procs false _)); [exact Hres|].
        simpl. rewrite Hres. reflexivity.
    + simpl. split; [reflexivity|]. split; [reflexivity|].
      exists 1%nat. split; [lia|]. auto.
Qed.


(** ** The names in the catalog *)

Lemma fold_append_unique_subset cands acc p :
  p ∈ fold_left _append_unique cands acc -> p ∈ acc \/ p ∈ cands.
Proof.
  revert acc. induction cands as [|c cands IH]; intros acc H; simpl in H.
  - left. exact H.
  - destruct (IH _ H) as [Hin|Hin].
    + unfold _append_unique in Hin. destruct (decide (c ∈ acc)).
      * left. exact Hin.
      * apply elem_of_app in Hin as [Hin|Hin]; [left; exact Hin|].
        apply list_elem_of_singleton in Hin as ->. right. left.
    + right. right. exact Hin.
Qed.

Lemma last_app_cons {A} (l1 : list A) x l2 d :
  List.last (l1 ++ x :: l2) d = List.last (x :: l2) d.
Proof.
  induction l1 as [|a l1 IH]; [reflexivity|].
  simpl app. change (List.last (a :: l1 ++ x :: l2) d)
    with (match (l1 ++ x :: l2)%list with
          | [] => a
          | _ :: _ => List.last (l1 ++ x :: l2) d
          end).
  destruct (l1 ++ x :: l2)%list eqn:E; [destruct l1; discriminate|].
  exact IH.
Qed.

Lemma name_sub p x xs : Pth.name (sub p (x :: xs)) = List.last (x :: xs) EmptyString.
Proof. unfold Pth.name, sub. simpl parts. apply last_app_cons. Qed.

Lemma parts_sub_nonempty p x xs : parts (sub p (x :: xs)) <> [].
Proof. unfold sub. simpl. destruct (parts p); discriminate. Qed.

(** X7.  Whatever the arguments, every path of a catalog that
    [zoom_paths] returns has a last component, and that component
    contains [zoom] in some case: a home or base directory itself is
    never in the catalog. *)
Theorem zoom_paths_names (h : Host) (system_name : string)
    (env : option (gmap string string)) (home : option Path)
    (paths : list Path) (p : Path) :
  zoom_paths h system_name env home = inr paths ->
  p ∈ paths ->
  parts p <> []
  /\ Str.contains "zoom" (Str.lower (Pth.name p)) = true.
Proof.
  unfold zoom_paths.
  repeat match goal with
         | |- context [String.eqb system_name ?s] =>
             destruct (String.eqb system_name s)
         end;
    try discriminate;
    intros H;
    apply (f_equal (fun r : result (list Path) =>
                      match r with inr x => x | inl _ => [] end)) in H;
    cbv beta iota in H; rewrite <- H; clear H; intros Hin;
    apply fold_append_unique_subset in Hin as [Hin|Hin];
    try (apply not_elem_of_nil in Hin; contradiction);
    revert Hin; plain_joins; intros Hin;
    repeat match type of Hin with
           | _ ∈ _ :: _ => apply elem_of_cons in Hin as [-> | Hin]
           end;
    try (apply not_elem_of_nil in Hin; contradiction);
    (split; [apply parts_sub_nonempty|rewrite name_sub; reflexivity]).
Qed.

Lemma zoom_paths_names_witness :
  let p := mkPath "/" ["home"; "u"; ".cache"; "ZoomOpener"] in
  parts p <> []
  /\ Str.contains "zoom" (Str.lower (Pth.name p)) = true.
Proof.
  intros p.
  apply (zoom_paths_names example_host "linux" None None
           (linux_table (mkPath "/" ["home"; "u"])) p).
  - vm_compute. reflexivity.
  - unfold linux_table. repeat constructor.
Defined.

(** ** The records of the columnar listing *)

Lemma lower_app a b : Str.lower (a ++ b) = (Str.lower a ++ Str.lower b)%string.
Proof.
  induction a as [|c a IH]; [reflexivity|].
  rewrite str_app_cons. simpl Str.lower. rewrite IH. reflexivity.
Qed.

Lemma prefix_app_space needle s sp b :
  no_space needle = true -> Str.isspace sp = true ->
  String.prefix needle (s ++ String sp b) = String.prefix needle s.
Proof.
  intros Hns Hsp. revert s. induction needle as [|n ns IH]; intros s.
  - destruct s; reflexivity.
  - simpl in Hns. apply andb_prop in Hns as [Hn Hns'].
    apply negb_true_iff in Hn.
    destruct s as [|c s].
    + rewrite str_app_nil_l, (prefix_space _ _ _ _ Hn Hsp). reflexivity.
    + rewrite str_app_cons, !prefix_cons_r, (IH Hns'). reflexivity.
Qed.

(** A word without whitespace is in [a], a blank, [b] exactly when it is
    in [a] or in [b]. *)
Lemma contains_app_space n ns a sp b :
  no_space (String n ns) = true -> Str.isspace sp = true ->
  Str.contains (String n ns) (a ++ String sp b)
  = Str.contains (String n ns) a || Str.contains (String n ns) b.
Proof.
  intros Hns Hsp.
  assert (Hn : Str.isspace n = false).
  { simpl in Hns. apply andb_prop in Hns as [Hn _].
    apply negb_true_iff in Hn. exact Hn. }
  induction a as [|c a IH].
  - rewrite str_app_nil_l, contains_cons, (prefix_space _ _ _ _ Hn Hsp).
    reflexivity.
  - rewrite str_app_cons, !contains_cons, IH.
    rewrite <- (str_app_cons c a (String sp b)).
    rewrite (prefix_app_space _ _ _ _ Hns Hsp), orb_assoc. reflexivity.
Qed.

Lemma take_word_no_space s w rest :
  Str.take_word s = (w, rest) -> no_space w = true.
Proof.
  revert w rest. induction s as [|c s IH]; intros w rest; simpl.
  - intros [= <- _]. reflexivity.
  - destruct (Str.isspace c) eqn:Hc; [intros [= <- _]; reflexivity|].
    destruct (Str.take_word s) as [w' r'].
    intros [= <- _]. simpl. rewrite Hc, (IH w' r' eq_refl). reflexivity.
Qed.

(** The first field of a split is a non-empty word without whitespace. *)
Lemma split_ws_cons k s w ws :
  Str.split_ws (S k) s = w :: ws ->
  w <> EmptyString /\ no_space w = true /\ exists rest, ws = Str.split_ws k rest.
Proof.
  change (Str.split_ws (S k) s)
    with (let r := Str.lstrip s in
          if Str.is_empty r then []
          else let (w, rest) := Str.take_word r in w :: Str.split_ws k rest).
  cbv zeta. destruct (Str.lstrip s) as [|c r] eqn:Hl; [discriminate|].
  pose proof (lstrip_head _ _ _ Hl) as Hc.
  simpl Str.is_empty. cbv iota.
  destruct (Str.take_word (String c r)) as [w' rest] eqn:Htw.
  intros [= <- <-].
  split; [|split; [exact (take_word_no_space _ _ _ Htw)|eauto]].
  simpl in Htw. rewrite Hc in Htw. destruct (Str.take_word r).
  injection Htw as <- _. discriminate.
Qed.

Lemma ps_fields_name line id_field name_field rest :
  ps_fields line = id_field :: name_field :: rest ->
  name_field <> EmptyString /\ no_space name_field = true
  /\ (rest = [] \/ exists c, rest = [c]).
Proof.
  unfold ps_fields. intros H.
  pose proof (split_ws_length_max 2 (Str.strip line)) as Hlen.
  rewrite H in Hlen.
  apply split_ws_cons in H as (_ & _ & rest0 & H).
  symmetry in H. apply split_ws_cons in H as (Hne & Hns & _).
  split; [exact Hne|]. split; [exact Hns|].
  destruct rest as [|c [|c' rest']]; [left; reflexivity|right; eauto|].
  simpl in Hlen. lia.
Qed.

Lemma ps_record_mentions_zoom line p :
  ps_record line = Some p ->
  name p <> EmptyString /\ no_space (name p) = true
  /\ (Str.contains "zoom" (Str.lower (name p)) = true
      \/ exists c, command p = Some c
                   /\ Str.contains "zoom" (Str.lower c) = true).
Proof.
  intros H. apply ps_record_iff in H
    as (id_field & name_field & rest & n & Hf & _ & Hz & ->).
  destruct (ps_fields_name _ _ _ _ Hf) as (Hne & Hns & Hrest).
  simpl. split; [exact Hne|]. split; [exact Hns|].
  destruct Hrest as [-> | [c ->]].
  - left. exact Hz.
  - change (Str.join " " [name_field; c])
      with (name_field ++ String " " c)%string in Hz.
    rewrite lower_app in Hz.
    change (Str.lower (String " " c)) with (String " " (Str.lower c)) in Hz.
    rewrite contains_app_space in Hz by reflexivity.
    apply orb_prop in Hz as [Hz|Hz]; [left; exact Hz|right; eauto].
Qed.

(** X8.  Every record that [parse_ps_output] returns has a name that is
    one non-empty word without whitespace, and [zoom], in some case, is
    in its name or in its command line. *)
Theorem parse_ps_output_mentions_zoom (output : string) :
  exists recs,
    parse_ps_output output = inr recs
    /\ forall p, p ∈ recs ->
         name p <> EmptyString /\ no_space (name p) = true
         /\ (Str.contains "zoom" (Str.lower (name p)) = true
             \/ exists c, command p = Some c
                          /\ Str.contains "zoom" (Str.lower c) = true).
Proof.
  exists (omap ps_record (Str.splitlines output)). split.
  - unfold parse_ps_output. rewrite parse_ps_loop_omap. reflexivity.
  - intros p Hp. apply list_elem_of_omap in Hp as (line & _ & Hrec).
    exact (ps_record_mentions_zoom line p Hrec).
Qed.

(** ** The records of the quoted listing *)

Lemma rstrip_idem s : Str.rstrip (Str.rstrip s) = Str.rstrip s.
Proof.
  induction s as [|c s IH]; [reflexivity|].
  rewrite rstrip_cons.
  destruct (Str.isspace c && Str.is_empty (Str.rstrip s)) eqn:E; [reflexivity|].
  rewrite rstrip_cons, IH, E. reflexivity.
Qed.

Lemma lstrip_rstrip_lstrip s :
  Str.lstrip (Str.rstrip (Str.lstrip s)) = Str.rstrip (Str.lstrip s).
Proof.
  destruct (Str.lstrip s) as [|c r] eqn:Hl; [reflexivity|].
  pose proof (lstrip_head _ _ _ Hl) as Hc.
  rewrite rstrip_cons, Hc. simpl. rewrite Hc. reflexivity.
Qed.

Lemma strip_idem s : Str.strip (Str.strip s) = Str.strip s.
Proof.
  unfold Str.strip. rewrite lstrip_rstrip_lstrip. apply rstrip_idem.
Qed.

(** X9.  Every record that [parse_tasklist_output] returns has no command
    line and a name that is non-empty, has no whitespace at its ends and
    contains [zoom] in some case. *)
Theorem parse_tasklist_output_mentions_zoom (output : string)
    (recs : list ProcessInfo) (p : ProcessInfo) :
  parse_tasklist_output output = inr recs ->
  p ∈ recs ->
  command p = None
  /\ name p <> EmptyString
  /\ Str.strip (name p) = name p
  /\ Str.contains "zoom" (Str.lower (name p)) = true.
Proof.
  unfold parse_tasklist_output. rewrite parse_tasklist_loop_omap.
  destruct (Csv.stopped _); [discriminate|].
  intros [= <-] Hp. apply list_elem_of_omap in Hp as (row & _ & Hrec).
  apply tasklist_record_iff in Hrec
    as (name_field & id_field & rest & n & _ & _ & Hz & _ & ->).
  simpl. rewrite <- zoom_in_stripped in Hz.
  split; [reflexivity|]. split; [|split; [apply strip_idem|exact Hz]].
  intros Hempty. rewrite Hempty in Hz. discriminate Hz.
Qed.

Lemma parse_tasklist_output_mentions_zoom_witness :
  let p := mkProcessInfo 1234 "Zoom.exe" None in
  command p = None
  /\ name p <> EmptyString
  /\ Str.strip (name p) = name p
  /\ Str.contains "zoom" (Str.lower (name p)) = true.
Proof.
  intros p.
  apply (parse_tasklist_output_mentions_zoom sample_tasklist [p] p).
  - vm_compute. reflexivity.
  - apply list_elem_of_here.
Defined.

(** ** The platform *)

(** X10.  [detect_system] returns [windows], [macos] or [linux] exactly
    for the platform names [Windows], [Darwin] and [Linux], written this
    way, and for what it returns [zoom_paths] has a catalog whatever its
    other arguments; for every other platform name it raises
    [UnsupportedSystemError] with that name in the message. *)
Theorem detect_system_result (h : Host) :
  match detect_system h with
  | inr system_name =>
      ((platform_system h = "Windows" /\ system_name = "windows")
       \/ (platform_system h = "Darwin" /\ system_name = "macos")
       \/ (platform_system h = "Linux" /\ system_name = "linux"))
      /\ forall env home, exists paths,
           zoom_paths h system_name env home = inr paths
  | inl e =>
      e = UnsupportedSystemError ("Unsupported platform: " ++ platform_system h)
      /\ platform_system h <> "Windows"
      /\ platform_system h <> "Darwin"
      /\ platform_system h <> "Linux"
  end.
Proof.
  unfold detect_system, SUPPORTED_SYSTEMS.
  rewrite !lookup_insert, lookup_empty.
  repeat case_decide; unfold ret, raise; cbv iota.
  - split; [auto|]. intros env home. unfold zoom_paths. simpl. eauto.
  - split; [auto|]. intros env home. unfold zoom_paths. simpl. eauto.
  - split; [auto|]. intros env home. unfold zoom_paths. simpl. eauto.
  - repeat split; congruence.
Qed.

(** ** The process enumeration *)

(** X11.  On macos and linux [list_zoom_processes] gives the records of
    the [ps] listing and raises exactly when the [ps] command does; on
    windows it parses the [tasklist] listing; for any other name it
    raises [UnsupportedSystemError] and looks at no listing. *)
Theorem list_zoom_processes_result (h : Host) (system_name : string) :
  (system_name = "macos" \/ system_name = "linux" ->
   list_zoom_processes h system_name
   = match ps_listing h with
     | inl e => inl e
     | inr output => inr (omap ps_record (Str.splitlines output))
     end)
  /\ (system_name = "windows" ->
      list_zoom_processes h system_name
      = match tasklist_listing h with
        | inl e => inl e
        | inr output => parse_tasklist_output output
        end)
  /\ (system_name <> "macos" -> system_name <> "linux" ->
      system_name <> "windows" ->
      list_zoom_processes h system_name
      = inl (UnsupportedSystemError system_name)).
Proof.
  unfold list_zoom_processes. split; [|split].
  - intros [-> | ->]; simpl; destruct (ps_listing h) as [e|output];
      try reflexivity; simpl; unfold parse_ps_output;
      rewrite parse_ps_loop_omap; reflexivity.
  - intros ->. simpl. destruct (tasklist_listing h); reflexivity.
  - intros Hm Hl Hw. apply String.eqb_neq in Hm, Hl, Hw.
    rewrite Hm, Hl, Hw. reflexivity.
Qed.

Lemma list_zoom_processes_result_witness :
  list_zoom_processes example_host "linux" = inr [mkProcessInfo 1 "zoom" None]
  /\ list_zoom_processes example_host "windows" = inr []
  /\ list_zoom_processes example_host "freebsd"
     = inl (UnsupportedSystemError "freebsd").
Proof.
  destruct (list_zoom_processes_result example_host "linux") as (H1 & _ & _).
  destruct (list_zoom_processes_result example_host "windows") as (_ & H2 & _).
  destruct (list_zoom_processes_result example_host "freebsd") as (_ & _ & H3).
  split; [|split].
  - rewrite H1 by (right; reflexivity). vm_compute. reflexivity.
  - rewrite H2 by reflexivity. vm_compute. reflexivity.
  - apply H3; discriminate.
Defined.

(** ** What a move leaves alone *)

Lemma shutil_move_free_frame n src b x s :
  Fs.lookup n src = Some s ->
  Fs.lookup n (b ++ [x]) = None ->
  Fs.is_dir n b = true ->
  Fs.is_prefix src b = false ->
  exists n', Fs.shutil_move src (b ++ [x]) n = inr n'
    /\ forall q, apart src q -> apart (b ++ [x]) q ->
                 Fs.lookup n' q = Fs.lookup n q.
Proof.
  intros Hsrc Hdst Hb Hpre.
  destruct (os_rename_free n src b x s Hsrc Hdst Hb Hpre)
    as (n' & Hren & _ & _ & Hframe).
  exists n'. split.
  - unfold Fs.shutil_move.
    assert (Hnd : Fs.is_dir n (b ++ [x]) = false)
      by (unfold Fs.is_dir; rewrite Hdst; reflexivity).
    rewrite Hnd. simpl. rewrite Hren. reflexivity.
  - intros q [H1 H2] [H3 H4]. apply Hframe; assumption.
Qed.

(** X12.  A live move to a free name in the backup directory changes
    nothing else: what is at a path that is neither at, above or below
    the target nor at, above or below the destination is as before. *)
Theorem backup_and_remove_frame (h : Host) (target backup_root : Path)
    (w : World) (q : list string) :
  Fs.exists_ (fs w) (parts target) = true ->
  plain_part (Pth.name target) = true ->
  Fs.is_dir (fs w) (parts backup_root) = true ->
  Fs.is_prefix (parts target) (parts backup_root) = false ->
  Fs.exists_ (fs w) (parts (sub backup_root [Pth.name target])) = false ->
  apart (parts target) q ->
  apart (parts (sub backup_root [Pth.name target])) q ->
  Fs.lookup (fs (snd (backup_and_remove h target backup_root false w))) q
  = Fs.lookup (fs w) q.
Proof.
  intros Hex Hplain Hdir Hpre Hfree Hq1 Hq2.
  destruct (exists_true_lookup _ _ Hex) as [s Hs].
  destruct (shutil_move_free_frame (fs w) (parts target) (parts backup_root)
              (Pth.name target) s Hs (exists_false_lookup _ _ Hfree) Hdir Hpre)
    as (n' & Hmove & Hframe).
  unfold backup_and_remove, mbind, fs_read, mret. rewrite Hex.
  rewrite (joinpath_plain _ _ (of_str_plain _ Hplain)).
  change (negb true) with false. cbv beta iota. rewrite Hfree. cbv beta iota.
  unfold print, fs_call. cbv beta iota. simpl fs.
  change (parts (sub backup_root [Pth.name target]))
    with (parts backup_root ++ [Pth.name target])%list.
  rewrite Hmove. simpl. apply Hframe; assumption.
Qed.

Lemma backup_and_remove_frame_witness :
  let n := dir [("tmp", dir [("Zoom", dir [("data", Fs.File "sample")]);
                             ("backup", dir []);
                             ("other", Fs.File "kept")])] in
  Fs.lookup
    (fs (snd (backup_and_remove example_host (mkPath "/" ["tmp"; "Zoom"])
                (mkPath "/" ["tmp"; "backup"]) false (world_of n))))
    ["tmp"; "other"]
  = Some (Fs.File "kept").
Proof.
  intros n.
  refine (eq_trans
            (backup_and_remove_frame example_host (mkPath "/" ["tmp"; "Zoom"])
               (mkPath "/" ["tmp"; "backup"]) (world_of n) ["tmp"; "other"]
               eq_refl eq_refl eq_refl eq_refl eq_refl _ _) eq_refl);
    split; reflexivity.
Defined.

(** ** The signals of a run *)

(** X13.  Whatever happens in a run, every signal it sends goes to the
    process id of a record that [list_zoom_processes] returned for the
    detected platform, and none is sent in a dry run or with the kill
    step skipped. *)
Theorem perform_reset_signals_listed (h : Host) (dry_run : bool)
    (backup_root : option Path) (skip_process_kill : bool) (w : World) :
  exists sent,
    signals (snd (perform_reset h dry_run backup_root skip_process_kill w))
    = (signals w ++ sent)%list
    /\ forall p, p ∈ sent ->
         dry_run = false /\ skip_process_kill = false
         /\ exists system_name procs proc,
              detect_system h = inr system_name
              /\ list_zoom_processes h system_name = inr procs
              /\ proc ∈ procs /\ pid proc = p.
Proof.
  set (P := fun p : Z =>
         dry_run = false /\ skip_process_kill = false
         /\ exists system_name procs proc,
              detect_system h = inr system_name
              /\ list_zoom_processes h system_name = inr procs
              /\ proc ∈ procs /\ pid proc = p).
  set (R := fun w1 w2 : World =>
         exists sent, signals w2 = (signals w1 ++ sent)%list
                      /\ forall p, p ∈ sent -> P p).
  assert (Hsame : forall w1 w2, signals w2 = signals w1 -> R w1 w2).
  { intros w1 w2 H. exists []. rewrite app_nil_r. split; [exact H|].
    intros p Hp. apply not_elem_of_nil in Hp. contradiction. }
  apply (keeps_perform_reset R).
  - intros w1. apply Hsame. reflexivity.
  - intros w1 w2 w3 (l1 & H1 & P1) (l2 & H2 & P2).
    exists (l1 ++ l2)%list. rewrite H2, H1, app_assoc. split; [reflexivity|].
    intros p Hp. apply elem_of_app in Hp as [Hp|Hp]; auto.
  - intros line w1. apply Hsame. reflexivity.
  - intros h1 w1. apply Hsame. reflexivity.
  - intros Hskip system_name procs Hsys Hprocs w1.
    destruct dry_run.
    + apply Hsame. rewrite kill_processes_dry. reflexivity.
    + destruct (kill_processes_live_prefix h procs w1)
        as (_ & _ & k & _ & Hsig & _).
      exists (map pid (take k procs)). split; [exact Hsig|].
      intros p Hp. apply list_elem_of_fmap in Hp as (proc & -> & Hproc).
      split; [reflexivity|]. split; [exact Hskip|].
      exists system_name, procs, proc.
      repeat split; try assumption.
      apply (subseteq_take k procs). exact Hproc.
  - intros rp w1. apply Hsame, same_signals_fs_call.
  - intros _ src dst w1. apply Hsame, same_signals_fs_call.
Qed.

(** ** Nothing to move *)

(** X14.  When none of the targets exists, the backup loop moves nothing,
    prints nothing and does not raise, in a dry run or not: the world is
    as before. *)
Theorem backup_each_nothing_to_move (h : Host) (targets : list Path)
    (backup_dir : Path) (dry_run : bool) (w : World) :
  Forall (fun t => Fs.exists_ (fs w) (parts t) = false) targets ->
  backup_each h targets backup_dir dry_run w = (inr tt, w).
Proof.
  induction 1 as [|t targets Ht _ IH]; [reflexivity|].
  simpl. unfold mbind.
  rewrite (backup_and_remove_missing h t backup_dir dry_run w Ht). exact IH.
Qed.

Lemma backup_each_nothing_to_move_witness :
  backup_each example_host (linux_table (mkPath "/" ["home"; "u"]))
    (mkPath "/" ["b"]) false (world_of tmp_fs)
  = (inr tt, world_of tmp_fs).
Proof.
  apply backup_each_nothing_to_move. unfold linux_table.
  repeat constructor.
Defined.

(** ** One directory per second *)

Lemma str_app_inj (a1 a2 b1 b2 : string) :
  String.length a1 = String.length a2 ->
  (a1 ++ b1)%string = (a2 ++ b2)%string -> a1 = a2 /\ b1 = b2.
Proof.
  revert a2. induction a1 as [|x a1 IH]; intros [|y a2] Hlen; try discriminate.
  - rewrite !str_app_nil_l. auto.
  - rewrite !str_app_cons. intros [= -> H]. injection Hlen as Hlen.
    destruct (IH a2 Hlen H) as [-> ->]. auto.
Qed.

Lemma digit_char_inj n m :
  digit_char n = digit_char m -> (n mod 10 = m mod 10)%nat.
Proof.
  unfold digit_char. intros H.
  pose proof (Nat.mod_upper_bound n 10 ltac:(discriminate)) as Hn.
  pose proof (Nat.mod_upper_bound m 10 ltac:(discriminate)) as Hm.
  apply (f_equal nat_of_ascii) in H.
  rewrite !nat_ascii_embedding in H by lia. lia.
Qed.

(** A number below [10 ^ width] is read back from its padded digits. *)
Lemma zero_padded_inj width n m :
  (n < 10 ^ width)%nat -> (m < 10 ^ width)%nat ->
  zero_padded width n = zero_padded width m -> n = m.
Proof.
  revert n m. induction width as [|width IH]; intros n m Hn Hm.
  - simpl in Hn, Hm. lia.
  - rewrite !zero_padded_S. intros H.
    apply str_app_inj in H as [H1 H2];
      [|rewrite !zero_padded_length; reflexivity].
    injection H2 as H2. apply digit_char_inj in H2.
    rewrite Nat.pow_succ_r' in Hn, Hm.
    assert (Hq : (n / 10 = m / 10)%nat).
    { apply IH; [| |exact H1]; apply Nat.Div0.div_lt_upper_bound; lia. }
    rewrite (Nat.div_mod_eq n 10), (Nat.div_mod_eq m 10). lia.
Qed.

Lemma strftime_stamp_inj (d1 d2 : datetime) :
  fits_stamp d1 -> fits_stamp d2 ->
  strftime_stamp d1 = strftime_stamp d2 -> d1 = d2.
Proof.
  intros (Hy1 & Hm1 & Hd1 & HH1 & HM1 & HS1) (Hy2 & Hm2 & Hd2 & HH2 & HM2 & HS2).
  unfold strftime_stamp, strftime_HMS. intros H.
  apply str_app_inj in H as [Hy H]; [|rewrite !zero_padded_length; reflexivity].
  apply str_app_inj in H as [Hm H]; [|rewrite !zero_padded_length; reflexivity].
  apply str_app_inj in H as [Hd H]; [|rewrite !zero_padded_length; reflexivity].
  apply str_app_inj in H as [_ H]; [|reflexivity].
  apply str_app_inj in H as [HH H]; [|rewrite !zero_padded_length; reflexivity].
  apply str_app_inj in H as [HM HS]; [|rewrite !zero_padded_length; reflexivity].
  apply zero_padded_inj in Hy, Hm, Hd, HH, HM, HS; try assumption.
  destruct d1, d2. simpl in *. congruence.
Qed.

(** X15.  The name of the backup directory tells the second: two
    different dates whose fields fit the widths of the stamp (a year of at
    most four digits) have different stamps, and so different backup
    directories under the same root. *)
Theorem timestamped_backup_dir_distinct (root : Path) (d1 d2 : datetime) :
  fits_stamp d1 -> fits_stamp d2 -> d1 <> d2 ->
  strftime_stamp d1 <> strftime_stamp d2
  /\ sub root [strftime_stamp d1] <> sub root [strftime_stamp d2].
Proof.
  intros H1 H2 Hne.
  assert (Hs : strftime_stamp d1 <> strftime_stamp d2).
  { intros H. apply Hne. exact (strftime_stamp_inj d1 d2 H1 H2 H). }
  split; [exact Hs|].
  unfold sub. intros [= H]. apply app_inv_head in H. congruence.
Qed.

Lemma timestamped_backup_dir_distinct_witness :
  let root := mkPath "/" ["b"] in
  let d1 := mkDatetime 2024 1 31 23 59 1 in
  let d2 := mkDatetime 2024 1 31 23 59 2 in
  strftime_stamp d1 <> strftime_stamp d2
  /\ sub root [strftime_stamp d1] <> sub root [strftime_stamp d2].
Proof.
  intros root d1 d2.
  apply timestamped_backup_dir_distinct;
    [unfold fits_stamp, d1; simpl; lia
    |unfold fits_stamp, d2; simpl; lia
    |discriminate].
Defined.

(** ** Nothing on the file system before the kill step is over *)

(** X16.  When the kill step raises, the run ends with that exception and
    the file system is as it was: no backup directory was made and no
    path was moved. *)
Theorem perform_reset_kill_failure (h : Host) (dry_run : bool)
    (backup_root : option Path) (w : World)
    (system_name : string) (proc : ProcessInfo) (procs : list ProcessInfo)
    (e : exn) :
  detect_system h = inr system_name ->
  list_zoom_processes h system_name = inr (proc :: procs) ->
  let w1 := printed [("Found " ++ pretty (length (proc :: procs))
                      ++ " running Zoom process(es)")%string]
              (printed [("Detected system: " ++ system_name)%string] w) in
  fst (kill_processes h (proc :: procs) dry_run w1) = inl e ->
  fst (perform_reset h dry_run backup_root false w) = inl e
  /\ fs (snd (perform_reset h dry_run backup_root false w)) = fs w.
Proof.
  intros Hsys Hlist w1 Hkill.
  assert (Hrun : exists w2,
             perform_reset h dry_run backup_root false w = (inl e, w2)
             /\ fs w2 = fs w);
    [|destruct Hrun as (w2 & -> & Hfs); split; [reflexivity|exact Hfs]].
  destruct dry_run.
  { rewrite kill_processes_dry in Hkill. discriminate Hkill. }
  destruct (kill_processes_live_prefix h (proc :: procs) w1) as (Hfs & _).
  unfold perform_reset, mbind at 1, lift. rewrite Hsys.
  unfold mbind at 1, print at 1. change (negb false) with true. cbv iota.
  unfold mbind at 1. unfold mbind at 1, lift. rewrite Hlist.
  unfold mbind at 1, print at 1.
  change (kill_processes h (proc :: procs) false _)
    with (kill_processes h (proc :: procs) false w1).
  destruct (kill_processes h (proc :: procs) false w1) as [[e'|u] w2];
    simpl in Hkill, Hfs; [|discriminate].
  injection Hkill as ->. exists w2. split; [reflexivity|exact Hfs].
Qed.

Lemma perform_reset_kill_failure_witness :
  let h := mkHost "Linux" ∅ (mkPath "/" ["home"; "u"]) (clock example_host)
                  (inr " 7 zoom") (inr EmptyString)
                  (fun _ _ => Some (OtherError "EINVAL")) in
  let w := world_of (dir []) in
  fst (perform_reset h false None false w) = inl (OtherError "EINVAL")
  /\ fs (snd (perform_reset h false None false w)) = fs w.
Proof.
  intros h w.
  apply (perform_reset_kill_failure h false None w "linux"
           (mkProcessInfo 7 "zoom" None) []); vm_compute; reflexivity.
Defined.
